(** * Quick Link Popup: a shallow embedding of [src/main.ts]

    The plugin shows a floating button next to the text selected in an
    editor and, on click, rewrites the selection into [[[...]]].  This
    development embeds the four classes of [main.ts]

      - [PopupConfig]        the layout constants,
      - [PopupManager]       the owner of the single popup element,
      - [PositionCalculator] the placement arithmetic,
      - [SelectionHandler]   the selection text and the bracket rewrite,

    together with the event handlers of [TextSelectionLinkerPlugin], and
    proves the properties its specification states about them.

    Numbers.  A JavaScript number is a binary64 float.  Every number the
    plugin computes with is a pixel coordinate obtained by finitely many
    additions, subtractions, one halving, [Math.max] and [Math.min]; they
    are modelled by exact rationals [Q], compared with [Qle_bool].  Two
    coordinates are compared with [==] ([Qeq]), since [80/2] and [40] are
    the same number with different representations.

    Strings.  A JavaScript string is a sequence of UTF-16 code units; it
    is modelled by the list of its code units, each an [N]. *)

From Stdlib Require Import QArith Qminmax Lqa NArith Bool String Ascii.
From stdpp Require Import base list.

Local Open Scope Q_scope.

(** ** JavaScript comparisons on numbers *)

Declare Scope js_scope.
Delimit Scope js_scope with js.

Definition Qgeb (a b : Q) : bool := Qle_bool b a.
Definition Qltb (a b : Q) : bool := negb (Qle_bool b a).
Definition Qgtb (a b : Q) : bool := negb (Qle_bool a b).

Notation "a <=? b" := (Qle_bool a b) (at level 70) : js_scope.
Notation "a >=? b" := (Qgeb a b) (at level 70) : js_scope.
Notation "a <? b" := (Qltb a b) (at level 70) : js_scope.
Notation "a >? b" := (Qgtb a b) (at level 70) : js_scope.

(** ** Types *)

(** [type PopupPlacement = 'top' | 'bottom'] *)
Module PopupPlacement.
Inductive t : Set := top | bottom.
End PopupPlacement.

(** [interface PopupPosition { top; left; placement }] *)
Module PopupPosition.
Record t : Set := mk { top : Q; left : Q; placement : PopupPlacement.t }.
End PopupPosition.

(** The browser's [DOMRect]: the four stored numbers are [x], [y], [width]
    and [height]; [top], [right], [bottom] and [left] are read-only
    attributes derived from them as the DOM standard defines them.  For a
    rectangle with non-negative [width] and [height], as
    [getBoundingClientRect] returns, [top = y], [bottom = y + height],
    [left = x] and [right = x + width]. *)
Module DOMRect.
Record t : Set := mk { x : Q; y : Q; width : Q; height : Q }.

Definition top (r : t) : Q := Qmin (y r) (y r + height r).
Definition bottom (r : t) : Q := Qmax (y r) (y r + height r).
Definition left (r : t) : Q := Qmin (x r) (x r + width r).
Definition right (r : t) : Q := Qmax (x r) (x r + width r).
End DOMRect.

(** The two attributes of [window] the calculator reads. *)
Module Window.
Record t : Set := mk { innerWidth : Q; innerHeight : Q }.
End Window.

(** ** [class PopupConfig] *)
Module PopupConfig.
Definition TAIL_SIZE : Q := 6.
Definition POPUP_MARGIN : Q := 10.
Definition TOTAL_OFFSET : Q := TAIL_SIZE + POPUP_MARGIN.
Definition SCREEN_MARGIN : Q := 10.
Definition SELECTION_CHECK_DELAY : Q := 50.
Definition DEBUG : bool := false.

Definition POPUP_CLASS : string := "text-selection-linker-popup".
Definition BUTTON_CLASS : string := "text-selection-linker-button".
Definition SHOW_CLASS : string := "show".
Definition PLACEMENT_TOP_CLASS : string := "popup-top".
Definition PLACEMENT_BOTTOM_CLASS : string := "popup-bottom".
End PopupConfig.

(** ** [class PositionCalculator]

    The static methods read [window.innerWidth] and [window.innerHeight];
    the window is passed as the first argument.  The console output
    ([logPositionDebug], which [DEBUG = false] switches off, and the
    warning before the forced position) does not influence the result and
    is left out. *)
Module PositionCalculator.
Import PopupConfig.
Local Open Scope js_scope.

Definition clampToHorizontalBounds (win : Window.t) (left popupWidth : Q) : Q :=
  let minLeft := SCREEN_MARGIN in
  let maxLeft := Window.innerWidth win - popupWidth - SCREEN_MARGIN in
  Qmax minLeft (Qmin left maxLeft).

Definition calculateHorizontalPosition
    (win : Window.t) (selectionRect popupRect : DOMRect.t) : Q :=
  let centerAligned :=
    DOMRect.left selectionRect + (DOMRect.width selectionRect / 2)
      - (DOMRect.width popupRect / 2) in
  clampToHorizontalBounds win centerAligned (DOMRect.width popupRect).

Definition calculateVerticalPosition
    (win : Window.t) (selectionRect popupRect : DOMRect.t)
    : Q * PopupPlacement.t :=
  let viewportHeight := Window.innerHeight win in
  let selectionTop := DOMRect.top selectionRect in
  let selectionBottom := DOMRect.bottom selectionRect in
  let topPlacement := selectionTop - DOMRect.height popupRect - TOTAL_OFFSET in
  if topPlacement >=? SCREEN_MARGIN then
    (topPlacement, PopupPlacement.top)
  else
    let bottomPlacement := selectionBottom + TOTAL_OFFSET in
    let popupBottom := bottomPlacement + DOMRect.height popupRect in
    if popupBottom <=? viewportHeight - SCREEN_MARGIN then
      (bottomPlacement, PopupPlacement.bottom)
    else
      let spaceAbove := selectionTop - SCREEN_MARGIN in
      let spaceBelow := viewportHeight - selectionBottom - SCREEN_MARGIN in
      if spaceAbove >=? spaceBelow then
        (Qmax SCREEN_MARGIN topPlacement, PopupPlacement.top)
      else
        (Qmin (viewportHeight - DOMRect.height popupRect - SCREEN_MARGIN)
              bottomPlacement,
         PopupPlacement.bottom).

Definition hasCollision
    (selectionRect : DOMRect.t) (position : PopupPosition.t)
    (popupRect : DOMRect.t) : bool :=
  let popupTop := PopupPosition.top position in
  let popupBottom := PopupPosition.top position + DOMRect.height popupRect in
  let popupLeft := PopupPosition.left position in
  let popupRight := PopupPosition.left position + DOMRect.width popupRect in
  let selectionTop := DOMRect.top selectionRect in
  let selectionBottom := DOMRect.bottom selectionRect in
  let selectionLeft := DOMRect.left selectionRect in
  let selectionRight := DOMRect.right selectionRect in
  let verticalOverlap :=
    negb ((popupBottom <? selectionTop) || (popupTop >? selectionBottom)) in
  let horizontalOverlap :=
    negb ((popupRight <? selectionLeft) || (popupLeft >? selectionRight)) in
  verticalOverlap && horizontalOverlap.

Definition forceSafePosition
    (win : Window.t) (selectionRect popupRect : DOMRect.t) : PopupPosition.t :=
  let viewportHeight := Window.innerHeight win in
  let top0 := DOMRect.top selectionRect - DOMRect.height popupRect - TOTAL_OFFSET in
  let '(top, placement) :=
    if top0 <? SCREEN_MARGIN then
      let top1 := DOMRect.bottom selectionRect + TOTAL_OFFSET in
      if top1 + DOMRect.height popupRect >? viewportHeight - SCREEN_MARGIN then
        (Qmax SCREEN_MARGIN
              (viewportHeight - DOMRect.height popupRect - SCREEN_MARGIN),
         PopupPlacement.bottom)
      else (top1, PopupPlacement.bottom)
    else (top0, PopupPlacement.top) in
  let left := calculateHorizontalPosition win selectionRect popupRect in
  PopupPosition.mk top left placement.

Definition calculate
    (win : Window.t) (selectionRect popupRect : DOMRect.t) : PopupPosition.t :=
  let left := calculateHorizontalPosition win selectionRect popupRect in
  let '(top, placement) := calculateVerticalPosition win selectionRect popupRect in
  if hasCollision selectionRect (PopupPosition.mk top left placement) popupRect
  then forceSafePosition win selectionRect popupRect
  else PopupPosition.mk top left placement.
End PositionCalculator.

(** ** Strings *)

(** A string is the list of its UTF-16 code units. *)
Definition JSString : Type := list N.

(** The code units of an ASCII literal. *)
Definition js (s : string) : JSString :=
  map N_of_ascii (list_ascii_of_string s).

Definition LEFT_BRACKET : N := 91.
Definition RIGHT_BRACKET : N := 93.

Definition isBracket (c : N) : bool :=
  (c =? LEFT_BRACKET)%N || (c =? RIGHT_BRACKET)%N.

Fixpoint startsWith (pattern s : JSString) : bool :=
  match pattern, s with
  | [], _ => true
  | p :: pattern', c :: s' => (p =? c)%N && startsWith pattern' s'
  | _ :: _, [] => false
  end.

(** [s.replace(/pattern/g, '')] for a pattern that is a literal, non-empty
    sequence of code units: the matches are found from left to right and
    do not overlap; after a match the scan resumes behind it.  [skip]
    counts the code units of the current match still to be dropped. *)
Fixpoint removeAllFrom (pattern : JSString) (skip : nat) (s : JSString) : JSString :=
  match s with
  | [] => []
  | c :: s' =>
      match skip with
      | S k => removeAllFrom pattern k s'
      | O =>
          if startsWith pattern s
          then removeAllFrom pattern (pred (length pattern)) s'
          else c :: removeAllFrom pattern O s'
      end
  end.

Definition removeAll (pattern : JSString) (s : JSString) : JSString :=
  removeAllFrom pattern O s.

(** [String.prototype.trim]: the code units ECMAScript counts as
    [WhiteSpace] or [LineTerminator]. *)
Definition isWhiteSpace (c : N) : bool :=
  ((9 <=? c) && (c <=? 13) || (c =? 32) || (c =? 160) || (c =? 5760)
   || (8192 <=? c) && (c <=? 8202) || (c =? 8232) || (c =? 8233)
   || (c =? 8239) || (c =? 8287) || (c =? 12288) || (c =? 65279))%N.

Fixpoint trimStart (s : JSString) : JSString :=
  match s with
  | [] => []
  | c :: s' => if isWhiteSpace c then trimStart s' else s
  end.

Definition trimEnd (s : JSString) : JSString := rev (trimStart (rev s)).

Definition trim (s : JSString) : JSString := trimEnd (trimStart s).

(** The specification's reading of the rewrite: every [[] and every []]
    removed, everything else kept in order. *)
Definition withoutBrackets (s : JSString) : JSString :=
  List.filter (fun c => negb (isBracket c)) s.

(** How often the code unit [c] occurs in [s]. *)
Definition occurrences (c : N) (s : JSString) : nat :=
  length (List.filter (N.eqb c) s).

(** ** The host: editors, the page and the browser *)

(** The part of Obsidian's [Editor] interface the plugin calls. *)
Class Editor (E : Type) : Type := {
  getSelection : E -> JSString;
  replaceSelection : JSString -> E -> E
}.

(** A plain text buffer with one selection, for running the handlers on
    concrete inputs: [replaceSelection] replaces the selected text and
    leaves the cursor behind the inserted text. *)
Module Buffer.
Record t : Type := mk { before : JSString; selected : JSString; after : JSString }.

Definition text (b : t) : JSString := before b ++ selected b ++ after b.
End Buffer.

#[export] Instance Buffer_Editor : Editor Buffer.t := {
  getSelection := Buffer.selected;
  replaceSelection replacement b :=
    Buffer.mk (Buffer.before b ++ replacement) [] (Buffer.after b)
}.

(** The closures the plugin hands to the browser.  None of them captures
    anything but [this], so a name identifies each. *)
Inductive ClickHandler : Set :=
  | HandleConvertToLink.       (* [() => { this.handleConvertToLink(); }] *)

Inductive FrameCallback : Set :=
  | AddShowClass               (* [() => { this.popup?.classList.add('show'); }] *)
  | PositionPopupAndRelease.   (* [() => { this.positionPopup(); this.isProcessing = false; }] *)

Inductive TimeoutCallback : Set :=
  | CheckSelection.            (* [() => { this.checkSelection(); }] *)

Record HTMLButtonElement : Type := {
  buttonClassName : string;
  innerHTML : string;
  title : string;
  clickListeners : list ClickHandler
}.

(** The popup [div]: its class tokens, the two inline style properties
    the plugin writes ([None] while unset; the value is the number before
    [px]) and its children. *)
Record HTMLElement : Type := {
  classList : list string;
  styleTop : option Q;
  styleLeft : option Q;
  children : list HTMLButtonElement
}.

(** [classList.add] and [classList.remove] on a list of class tokens. *)
Definition hasClass (token : string) (classes : list string) : bool :=
  existsb (String.eqb token) classes.

Definition classList_add (token : string) (classes : list string) : list string :=
  if hasClass token classes then classes else classes ++ [token].

Definition classList_remove (tokens : list string) (classes : list string) : list string :=
  List.filter (fun c => negb (hasClass c tokens)) classes.

(** What the plugin writes in the browser.  Elements live in a store and
    are referred to by their index; [body] lists the plugin's elements
    that are children of [document.body]. *)
Record Page : Type := {
  elements : list HTMLElement;
  body : list nat;
  animationFrames : list FrameCallback;
  timeouts : list TimeoutCallback
}.

(** [parent.appendChild(node)] moves a node that is already a child to
    the end; [node.remove()] detaches it. *)
Definition removeChild (r : nat) (nodes : list nat) : list nat :=
  List.filter (fun n => negb (n =? r)%nat) nodes.

Definition appendChild (r : nat) (nodes : list nat) : list nat :=
  removeChild r nodes ++ [r].

(** How often the node [r] occurs among [nodes]. *)
Definition occurrencesOf (r : nat) (nodes : list nat) : nat :=
  length (List.filter (Nat.eqb r) nodes).

(** What the plugin reads from Obsidian and the browser: the editors,
    referred to by index; the editor of the active Markdown view, if any
    ([activeView?.editor]); the bounding rectangle of the first range of
    [window.getSelection()], if any; the window; the layout of the
    plugin's elements. *)
Record Host (E : Type) : Type := {
  editors : list E;
  activeEditor : option nat;
  selectionRect : option DOMRect.t;
  window : Window.t;
  boundingClientRect : nat -> DOMRect.t
}.
Arguments editors {E}.
Arguments activeEditor {E}.
Arguments selectionRect {E}.
Arguments window {E}.
Arguments boundingClientRect {E}.

Record KeyboardEvent : Type := { key : string; shiftKey : bool }.

(** The field of [PopupManager]: [private popup: HTMLElement | null]. *)
Record PopupManagerFields : Type := { popup : option nat }.

(** The field of [SelectionHandler]: [private editor: Editor | null]. *)
Record SelectionHandlerFields : Type := { editor : option nat }.

(** The plugin instance with everything it reads and writes. *)
Record State (E : Type) : Type := {
  popupManager : PopupManagerFields;
  selectionHandler : SelectionHandlerFields;
  isProcessing : bool;
  page : Page;
  host : Host E
}.
Arguments Build_State {E}.
Arguments popupManager {E}.
Arguments selectionHandler {E}.
Arguments isProcessing {E}.
Arguments page {E}.
Arguments host {E}.

(** ** Methods as state transformers *)

Definition M (E A : Type) : Type := State E -> A * State E.

#[export] Instance M_ret {E} : MRet (M E) := fun A (a : A) s => (a, s).
#[export] Instance M_bind {E} : MBind (M E) :=
  fun A B (f : A -> M E B) (m : M E A) s => let '(a, s') := m s in f a s'.

Definition gets {E A} (f : State E -> A) : M E A := fun s => (f s, s).
Definition modify {E} (f : State E -> State E) : M E unit := fun s => (tt, f s).

(** The state after running a method. *)
Definition exec {E A} (m : M E A) (s : State E) : State E := snd (m s).
(** The value a method returns. *)
Definition eval {E A} (m : M E A) (s : State E) : A := fst (m s).

Section Setters.
Context {E : Type}.

Definition withPopup (p : option nat) (s : State E) : State E :=
  Build_State (Build_PopupManagerFields p) (selectionHandler s) (isProcessing s)
    (page s) (host s).

Definition withEditor (e : option nat) (s : State E) : State E :=
  Build_State (popupManager s) (Build_SelectionHandlerFields e) (isProcessing s)
    (page s) (host s).

Definition withProcessing (b : bool) (s : State E) : State E :=
  Build_State (popupManager s) (selectionHandler s) b (page s) (host s).

Definition withPage (p : Page) (s : State E) : State E :=
  Build_State (popupManager s) (selectionHandler s) (isProcessing s) p (host s).

Definition withHost (h : Host E) (s : State E) : State E :=
  Build_State (popupManager s) (selectionHandler s) (isProcessing s) (page s) h.

Definition withEditors (es : list E) (h : Host E) : Host E :=
  Build_Host E es (activeEditor h) (selectionRect h) (window h)
    (boundingClientRect h).

Definition requestAnimationFrame (callback : FrameCallback) : M E unit :=
  modify (fun s =>
    let p := page s in
    withPage (Build_Page (elements p) (body p)
                (animationFrames p ++ [callback]) (timeouts p)) s).

(** Every timeout of the plugin has the same delay, so they fire in the
    order they were set. *)
Definition setTimeout (callback : TimeoutCallback) : M E unit :=
  modify (fun s =>
    let p := page s in
    withPage (Build_Page (elements p) (body p) (animationFrames p)
                (timeouts p ++ [callback])) s).

Definition setBody (nodes : list nat) : M E unit :=
  modify (fun s =>
    let p := page s in
    withPage (Build_Page (elements p) nodes (animationFrames p) (timeouts p)) s).

(** Apply [f] to the element a reference points to. *)
Definition updateElement (r : nat) (f : HTMLElement -> HTMLElement) : M E unit :=
  modify (fun s =>
    let p := page s in
    match elements p !! r with
    | Some el =>
        withPage (Build_Page (<[r := f el]> (elements p)) (body p)
                    (animationFrames p) (timeouts p)) s
    | None => s
    end).

(** [document.createElement]: a fresh reference. *)
Definition createElement (el : HTMLElement) : M E nat :=
  fun s =>
    let p := page s in
    (length (elements p),
     withPage (Build_Page (elements p ++ [el]) (body p)
                 (animationFrames p) (timeouts p)) s).
End Setters.
(** ** [class PopupManager] *)
Module PopupManager.
Section Methods.
Context {E : Type}.
Import PopupConfig.

Definition createLinkButton (onClick : ClickHandler) : HTMLButtonElement :=
  {| buttonClassName := BUTTON_CLASS;
     innerHTML := "[[Link]]";
     title := "Convert to internal link";
     clickListeners := [onClick] |}.

Definition create (onConvert : ClickHandler) : M E nat :=
  let linkButton := createLinkButton onConvert in
  el ← createElement
    {| classList := [POPUP_CLASS]; styleTop := None; styleLeft := None;
       children := [linkButton] |};
  modify (withPopup (Some el));;
  mret el.

Definition show : M E unit :=
  held ← gets (fun s => popup (popupManager s));
  match held with
  | None => mret tt
  | Some el =>
      nodes ← gets (fun s => body (page s));
      setBody (appendChild el nodes);;
      requestAnimationFrame AddShowClass
  end.

Definition hide : M E unit :=
  held ← gets (fun s => popup (popupManager s));
  match held with
  | Some el =>
      nodes ← gets (fun s => body (page s));
      setBody (removeChild el nodes);;
      modify (withPopup None)
  | None => mret tt
  end.

Definition placementClass (placement : PopupPlacement.t) : string :=
  match placement with
  | PopupPlacement.top => "popup-top"
  | PopupPlacement.bottom => "popup-bottom"
  end.

Definition position (position : PopupPosition.t) : M E unit :=
  held ← gets (fun s => popup (popupManager s));
  match held with
  | None => mret tt
  | Some el =>
      updateElement el (fun e =>
        {| classList :=
             classList_add (placementClass (PopupPosition.placement position))
               (classList_remove [PLACEMENT_TOP_CLASS; PLACEMENT_BOTTOM_CLASS]
                  (classList e));
           styleTop := Some (PopupPosition.top position);
           styleLeft := Some (PopupPosition.left position);
           children := children e |})
  end.

Definition getElement : M E (option nat) :=
  gets (fun s => popup (popupManager s)).

Definition exists_ : M E bool :=
  gets (fun s =>
    match popup (popupManager s) with
    | Some _ => true
    | None => false
    end).
End Methods.
End PopupManager.

(** ** [class SelectionHandler] *)
Module SelectionHandler.
Section Methods.
Context {E : Type} `{Editor E}.

Definition setEditor (ed : nat) : M E unit :=
  modify (withEditor (Some ed)).

(** [this.editor?.getSelection() || ''] *)
Definition getSelectedText : M E JSString :=
  bound ← gets (fun s => editor (selectionHandler s));
  match bound with
  | None => mret []
  | Some ed =>
      obj ← gets (fun s => editors (host s) !! ed);
      match obj with
      | Some e => mret (getSelection e)
      | None => mret []
      end
  end.

Definition hasValidSelection : M E bool :=
  selectedText ← getSelectedText;
  mret (0 <? length (trim selectedText))%nat.

(** The text [convertToLink] computes from the selected text: the four
    global replacements, then the template [`[[${selectedText}]]`]. *)
Definition linkedText (selectedText : JSString) : JSString :=
  let selectedText :=
    removeAll (js "]]") (removeAll (js "[[") selectedText) in
  let selectedText :=
    removeAll (js "]") (removeAll (js "[") selectedText) in
  js "[[" ++ selectedText ++ js "]]".

Definition convertToLink : M E unit :=
  bound ← gets (fun s => editor (selectionHandler s));
  match bound with
  | None => mret tt
  | Some ed =>
      selectedText ← getSelectedText;
      match selectedText with
      | [] => mret tt
      | _ :: _ =>
          modify (fun s =>
            match editors (host s) !! ed with
            | Some e =>
                withHost
                  (withEditors
                     (<[ed := replaceSelection (linkedText selectedText) e]>
                        (editors (host s)))
                     (host s)) s
            | None => s
            end)
      end
  end.

Definition getSelectionRect : M E (option DOMRect.t) :=
  gets (fun s => selectionRect (host s)).
End Methods.
End SelectionHandler.

(** ** [class TextSelectionLinkerPlugin] *)
Module TextSelectionLinkerPlugin.
Section Handlers.
Context {E : Type} `{Editor E}.
Import PopupConfig.

Definition positionPopup : M E unit :=
  rect ← SelectionHandler.getSelectionRect;
  popupElement ← PopupManager.getElement;
  match rect, popupElement with
  | Some selectionRect, Some el =>
      popupRect ← gets (fun s => boundingClientRect (host s) el);
      win ← gets (fun s => window (host s));
      PopupManager.position
        (PositionCalculator.calculate win selectionRect popupRect)
  | _, _ => mret tt
  end.

Definition updatePopupPosition : M E unit :=
  rect ← SelectionHandler.getSelectionRect;
  popupElement ← PopupManager.getElement;
  match rect, popupElement with
  | Some selectionRect, Some el =>
      popupRect ← gets (fun s => boundingClientRect (host s) el);
      win ← gets (fun s => window (host s));
      PopupManager.position
        (PositionCalculator.calculate win selectionRect popupRect)
  | _, _ => PopupManager.hide
  end.

Definition handleScrollOrResize : M E unit :=
  shown ← PopupManager.exists_;
  if (shown : bool) then updatePopupPosition else mret tt.

Definition handleConvertToLink : M E unit :=
  SelectionHandler.convertToLink;;
  PopupManager.hide.

Definition showPopup : M E unit :=
  modify (withProcessing true);;
  PopupManager.hide;;
  _ ← PopupManager.create HandleConvertToLink;
  PopupManager.show;;
  requestAnimationFrame PositionPopupAndRelease.

Definition checkSelection : M E unit :=
  busy ← gets isProcessing;
  if (busy : bool) then mret tt
  else
    activeView ← gets (fun s => activeEditor (host s));
    match activeView with
    | None => PopupManager.hide
    | Some ed =>
        SelectionHandler.setEditor ed;;
        valid ← SelectionHandler.hasValidSelection;
        if (valid : bool) then showPopup else PopupManager.hide
    end.

Definition handleMouseUp : M E unit :=
  setTimeout CheckSelection.

Definition isArrowKey (k : string) : bool :=
  existsb (String.eqb k) ["ArrowLeft"; "ArrowRight"; "ArrowUp"; "ArrowDown"]%string.

Definition handleKeyUp (event : KeyboardEvent) : M E unit :=
  if String.eqb (key event) "Escape" then PopupManager.hide
  else
    let isShiftArrowKey := shiftKey event && isArrowKey (key event) in
    if isShiftArrowKey then setTimeout CheckSelection else mret tt.

Definition handleSelectionChange : M E unit :=
  shown ← PopupManager.exists_;
  if (shown : bool) then
    valid ← SelectionHandler.hasValidSelection;
    if negb (valid : bool) then PopupManager.hide else mret tt
  else mret tt.

(** The listener registered for [active-leaf-change]. *)
Definition handleActiveLeafChange : M E unit := PopupManager.hide.

Definition onunload : M E unit := PopupManager.hide.

(** *** The callbacks the browser runs later *)

Definition runFrameCallback (callback : FrameCallback) : M E unit :=
  match callback with
  | AddShowClass =>
      held ← PopupManager.getElement;
      match held with
      | Some el =>
          updateElement el (fun e =>
            {| classList := classList_add SHOW_CLASS (classList e);
               styleTop := styleTop e; styleLeft := styleLeft e;
               children := children e |})
      | None => mret tt
      end
  | PositionPopupAndRelease =>
      positionPopup;;
      modify (withProcessing false)
  end.

Fixpoint runFrameCallbacks (callbacks : list FrameCallback) : M E unit :=
  match callbacks with
  | [] => mret tt
  | callback :: rest => runFrameCallback callback;; runFrameCallbacks rest
  end.

(** The next animation frame: the callbacks requested so far run in the
    order of their requests. *)
Definition animationFrame : M E unit :=
  callbacks ← gets (fun s => animationFrames (page s));
  modify (fun s =>
    let p := page s in
    withPage (Build_Page (elements p) (body p) [] (timeouts p)) s);;
  runFrameCallbacks callbacks.

Definition runTimeoutCallback (callback : TimeoutCallback) : M E unit :=
  match callback with
  | CheckSelection => checkSelection
  end.

(** The oldest pending timeout expires. *)
Definition timeoutExpires : M E unit :=
  pending ← gets (fun s => timeouts (page s));
  match pending with
  | [] => mret tt
  | callback :: rest =>
      modify (fun s =>
        let p := page s in
        withPage (Build_Page (elements p) (body p) (animationFrames p) rest) s);;
      runTimeoutCallback callback
  end.

(** A click on the button of the element [el] runs the listeners
    registered on it. *)
Definition runClickHandler (handler : ClickHandler) : M E unit :=
  match handler with
  | HandleConvertToLink => handleConvertToLink
  end.
End Handlers.
End TextSelectionLinkerPlugin.

(** ** The event-step relation of the controller

    Between [onload] and [onunload] the browser and Obsidian call the
    registered listeners and the deferred callbacks, one at a time; a
    handler runs to completion before the next one starts. *)

Inductive Event : Type :=
  | MouseUp
  | KeyUp (event : KeyboardEvent)
  | SelectionChange
  | Scroll
  | Resize
  | ActiveLeafChange
  | TimeoutExpires
  | AnimationFrame
  | Click (el : nat).

Section Controller.
Context {E : Type} `{Editor E}.
Import TextSelectionLinkerPlugin.

(** A click reaches the button of [el] only while [el] is in the
    document. *)
Definition click (el : nat) : M E unit :=
  attached ← gets (fun s => existsb (Nat.eqb el) (body (page s)));
  obj ← gets (fun s => elements (page s) !! el);
  match attached, obj with
  | true, Some e =>
      foldr (fun handler rest => runClickHandler handler;; rest) (mret tt)
        (concat (map clickListeners (children e)))
  | _, _ => mret tt
  end.

Definition handle (ev : Event) : M E unit :=
  match ev with
  | MouseUp => handleMouseUp
  | KeyUp event => handleKeyUp event
  | SelectionChange => handleSelectionChange
  | Scroll | Resize => handleScrollOrResize
  | ActiveLeafChange => handleActiveLeafChange
  | TimeoutExpires => timeoutExpires
  | AnimationFrame => animationFrame
  | Click el => click el
  end.

(** The host changed, but the selected text of every editor is what it
    was (scrolling, resizing, layout, a new pane, typing elsewhere). *)
Definition keepsSelections (h h' : Host E) : Prop :=
  forall ed e, editors h !! ed = Some e ->
    exists e', editors h' !! ed = Some e' /\ getSelection e' = getSelection e.

(** One step: the browser runs a listener or a deferred callback, or the
    host changes -- the user selects, edits, scrolls, resizes or switches
    panes.  The browser announces a change of the selection by a
    [selectionchange] event, which is a later step of its own: nothing
    ties the two together. *)
Inductive step : State E -> State E -> Prop :=
| step_handle ev s :
    step s (exec (handle ev) s)
| step_host s h' :
    step s (withHost h' s).

(** After [onload]: no popup, no editor bound, nothing pending. *)
Definition initial (h : Host E) : State E :=
  {| popupManager := {| popup := None |};
     selectionHandler := {| editor := None |};
     isProcessing := false;
     page := {| elements := []; body := []; animationFrames := []; timeouts := [] |};
     host := h |}.

Inductive reachable : State E -> Prop :=
| reachable_initial h : reachable (initial h)
| reachable_step s s' : reachable s -> step s s' -> reachable s'.

(** The element [el] is in the document and carries the class that
    makes it visible. *)
Definition isVisible (el : nat) (s : State E) : bool :=
  existsb (Nat.eqb el) (body (page s))
  && match elements (page s) !! el with
     | Some e => hasClass PopupConfig.SHOW_CLASS (classList e)
     | None => false
     end.

(** The invariant of the controller: a held popup comes with a valid
    selection, and the only element the plugin has in the document is
    the held popup. *)
Definition popupHasSelection (s : State E) : Prop :=
  forall el, popup (popupManager s) = Some el ->
    eval SelectionHandler.hasValidSelection s = true.

Definition onlyHeldPopupInBody (s : State E) : Prop :=
  forall el, In el (body (page s)) -> popup (popupManager s) = Some el.

Definition controllerInvariant (s : State E) : Prop :=
  popupHasSelection s /\ onlyHeldPopupInBody s.

(** No popup is held and none is in the document. *)
Definition noPopup (s : State E) : Prop :=
  popup (popupManager s) = None /\ body (page s) = [].

(** Two states that differ at most in the elements' attributes, the
    pending callbacks and the re-entrancy guard. *)
Definition samePopupAndSelection (s s' : State E) : Prop :=
  popupManager s' = popupManager s
  /\ selectionHandler s' = selectionHandler s
  /\ body (page s') = body (page s)
  /\ host s' = host s.
End Controller.

(** ** Further invariants of the controller *)

Section ControllerShape.
Context {E : Type}.

(** The held popup is an element of the store and the only child the
    plugin has in the document; without a held popup there is none. *)
Definition popupIsOnlyChild (s : State E) : Prop :=
  match popup (popupManager s) with
  | Some el =>
      body (page s) = [el] /\ (el < length (elements (page s)))%nat
  | None => body (page s) = []
  end.

(** While the re-entrancy guard is set, the callback that clears it is
    waiting for the next animation frame. *)
Definition guardHasRelease (s : State E) : Prop :=
  isProcessing s = true ->
  In PositionPopupAndRelease (animationFrames (page s)).

Definition isRelease (callback : FrameCallback) : bool :=
  match callback with
  | PositionPopupAndRelease => true
  | AddShowClass => false
  end.

(** Two states that differ at most in the attributes of the elements, in
    the pending timeouts, in the bound editor and in the host. *)
Definition sameShapeAndGuard (s s' : State E) : Prop :=
  popupManager s' = popupManager s
  /\ body (page s') = body (page s)
  /\ length (elements (page s')) = length (elements (page s))
  /\ animationFrames (page s') = animationFrames (page s)
  /\ isProcessing s' = isProcessing s.
End ControllerShape.

(** ** Geometry of the specification *)

(** The rectangle of the scenarios: [{top, left, width, height}] with
    non-negative sizes. *)
Definition rect (top left width height : Q) : DOMRect.t :=
  DOMRect.mk left top width height.

(** The popup's box under a placement overlaps the selection's box when
    the two closed intervals meet on the vertical axis and on the
    horizontal axis. *)
Definition overlaps
    (selectionRect : DOMRect.t) (p : PopupPosition.t) (popupRect : DOMRect.t) : Prop :=
  (DOMRect.top selectionRect <= PopupPosition.top p + DOMRect.height popupRect
   /\ PopupPosition.top p <= DOMRect.bottom selectionRect)
  /\ (DOMRect.left selectionRect <= PopupPosition.left p + DOMRect.width popupRect
      /\ PopupPosition.left p <= DOMRect.right selectionRect).

(** The popup's box lies within the viewport shrunk by the screen margin
    on every side. *)
Definition withinViewport
    (win : Window.t) (p : PopupPosition.t) (popupRect : DOMRect.t) : Prop :=
  (PopupConfig.SCREEN_MARGIN <= PopupPosition.left p
   /\ PopupPosition.left p + DOMRect.width popupRect
        <= Window.innerWidth win - PopupConfig.SCREEN_MARGIN)
  /\ (PopupConfig.SCREEN_MARGIN <= PopupPosition.top p
      /\ PopupPosition.top p + DOMRect.height popupRect
           <= Window.innerHeight win - PopupConfig.SCREEN_MARGIN).

(** A point of the viewport lies in the selection's box, or in the
    popup's box under a placement. *)
Definition inSelectionBox (selectionRect : DOMRect.t) (px py : Q) : Prop :=
  (DOMRect.left selectionRect <= px /\ px <= DOMRect.right selectionRect)
  /\ (DOMRect.top selectionRect <= py /\ py <= DOMRect.bottom selectionRect).

Definition inPopupBox
    (p : PopupPosition.t) (popupRect : DOMRect.t) (px py : Q) : Prop :=
  (PopupPosition.left p <= px
   /\ px <= PopupPosition.left p + DOMRect.width popupRect)
  /\ (PopupPosition.top p <= py
      /\ py <= PopupPosition.top p + DOMRect.height popupRect).

(** Where the popup's left edge would be if it were centred over the
    selection, before clamping. *)
Definition centerAligned (selectionRect popupRect : DOMRect.t) : Q :=
  DOMRect.left selectionRect + (DOMRect.width selectionRect / 2)
    - (DOMRect.width popupRect / 2).

(** ** Scenarios

    The concrete inputs the properties below are evaluated on. *)

Definition viewport_1000x800 : Window.t := Window.mk 1000 800.

(** A popup measuring 120 by 40; where it currently sits does not matter. *)
Definition popup_120x40 (px py : Q) : DOMRect.t := DOMRect.mk px py 120 40.

(** Selecting a whole screen of text: the selection runs from 5 to 785 in
    a viewport 800 high, so a popup 40 high fits on neither side of it. *)
Definition whole_screen_selection : DOMRect.t := rect 5 100 600 780.

(** A selection that has been scrolled 1200 pixels below the bottom edge
    of the viewport; scrolling re-runs the calculator on it. *)
Definition selection_scrolled_away : DOMRect.t := rect 2000 100 80 20.

(** The buffer [see ][a[b]]c[[d][ there], with the middle part selected. *)
Definition example_buffer : Buffer.t :=
  Buffer.mk (js "see ") (js "a[b]]c[[d") (js " there").

Definition example_state : State Buffer.t :=
  {| popupManager := {| popup := None |};
     selectionHandler := {| editor := Some 0%nat |};
     isProcessing := false;
     page := {| elements := []; body := []; animationFrames := []; timeouts := [] |};
     host := {| editors := [example_buffer]; activeEditor := Some 0%nat;
                selectionRect := Some (rect 500 100 80 20);
                window := viewport_1000x800;
                boundingClientRect := fun _ => popup_120x40 0 0 |} |}.

(** A selection is made with the mouse, the delayed check runs, and the
    next animation frame shows the popup. *)
Definition state_after_selecting : State Buffer.t :=
  exec (handle AnimationFrame)
    (exec (handle TimeoutExpires)
       (exec (handle MouseUp) (initial (host example_state)))).

(** The host after the user has clicked into the text: nothing is
    selected any more. *)
Definition cleared_host : Host Buffer.t :=
  {| editors := [Buffer.mk (js "see a[b]]c[[d") [] (js " there")];
     activeEditor := Some 0%nat;
     selectionRect := Some (rect 500 190 0 20);
     window := viewport_1000x800;
     boundingClientRect := fun _ => popup_120x40 80 444 |}.

(** A plain arrow key, released. *)
Definition arrowLeft : KeyboardEvent := {| key := "ArrowLeft"; shiftKey := false |}.

(** The popup is on screen; the selection is cleared, and before the
    browser delivers [selectionchange] the window is scrolled, a frame
    passes and an arrow key is released. *)
Definition state_after_clearing : State Buffer.t :=
  exec (handle (KeyUp arrowLeft))
    (exec (handle AnimationFrame)
       (exec (handle Scroll)
          (withHost cleared_host state_after_selecting))).

(** The cancel key, released. *)
Definition escape : KeyboardEvent := {| key := "Escape"; shiftKey := false |}.

(** * Properties *)

(** ** Reading boolean comparisons and [Math.max] / [Math.min] *)

Lemma Qle_boolP (a b : Q) : reflect (a <= b) (Qle_bool a b).
Proof. apply iff_reflect. symmetry. apply Qle_bool_iff. Qed.

Lemma Qgeb_true (a b : Q) : Qgeb a b = true <-> b <= a.
Proof. unfold Qgeb. apply Qle_bool_iff. Qed.

Lemma Qltb_true (a b : Q) : Qltb a b = true <-> a < b.
Proof.
  unfold Qltb. destruct (Qle_boolP b a) as [Hle | Hnle]; simpl; split;
    intros H; try discriminate; try reflexivity; lra.
Qed.

Lemma Qgtb_true (a b : Q) : Qgtb a b = true <-> b < a.
Proof.
  unfold Qgtb. destruct (Qle_boolP a b) as [Hle | Hnle]; simpl; split;
    intros H; try discriminate; try reflexivity; lra.
Qed.

(** Name every [Qmax] and [Qmin] of the goal and keep only its
    characterisation by inequalities. *)
Ltac name_max a b :=
  let m := fresh "mx" in
  pose proof (Q.max_spec a b); set (m := Qmax a b) in *; clearbody m.

Ltac name_min a b :=
  let m := fresh "mn" in
  pose proof (Q.min_spec a b); set (m := Qmin a b) in *; clearbody m.

Ltac name_minmax :=
  repeat match goal with
  | |- context [Qmax ?a ?b] => name_max a b
  | |- context [Qmin ?a ?b] => name_min a b
  | _ : context [Qmax ?a ?b] |- _ => name_max a b
  | _ : context [Qmin ?a ?b] |- _ => name_min a b
  end;
  repeat match goal with
  | H : _ /\ _ \/ _ /\ _ |- _ => destruct H as [[? ?] | [? ?]]
  end.

(** Split on every comparison the code branches on. *)
Ltac split_comparisons :=
  unfold Qgeb, Qltb, Qgtb in *;
  repeat match goal with
  | |- context [Qle_bool ?a ?b] => destruct (Qle_boolP a b); simpl negb
  | H : context [Qle_bool ?a ?b] |- _ => destruct (Qle_boolP a b); simpl negb in H
  end.

Ltac unfold_config :=
  unfold PopupConfig.TOTAL_OFFSET, PopupConfig.TAIL_SIZE,
    PopupConfig.POPUP_MARGIN, PopupConfig.SCREEN_MARGIN in *.

(** Forget how the four edges of a rectangle are derived: the calculator
    only reads them. *)
Ltac name_edges r :=
  let t := fresh "selTop" in
  let b := fresh "selBottom" in
  let l := fresh "selLeft" in
  let g := fresh "selRight" in
  set (t := DOMRect.top r) in *; set (b := DOMRect.bottom r) in *;
  set (l := DOMRect.left r) in *; set (g := DOMRect.right r) in *;
  clearbody t b l g.

Lemma hasCollision_overlaps selectionRect p popupRect :
  PositionCalculator.hasCollision selectionRect p popupRect = true
  <-> overlaps selectionRect p popupRect.
Proof.
  unfold PositionCalculator.hasCollision, overlaps.
  rewrite andb_true_iff, !negb_true_iff, !orb_false_iff.
  rewrite <- !not_true_iff_false, !Qltb_true, !Qgtb_true.
  split; intros [[? ?] [? ?]]; repeat split; lra.
Qed.

Section Calculator.
Import PositionCalculator PopupConfig.
Variable win : Window.t.
Variables selectionRect popupRect : DOMRect.t.

Local Abbreviation viewportHeight := (Window.innerHeight win).
Local Abbreviation topPlacement :=
  (DOMRect.top selectionRect - DOMRect.height popupRect - TOTAL_OFFSET).
Local Abbreviation bottomPlacement := (DOMRect.bottom selectionRect + TOTAL_OFFSET).

Lemma clamp_lower_bound (left popupWidth : Q) :
  SCREEN_MARGIN <= clampToHorizontalBounds win left popupWidth.
Proof. unfold clampToHorizontalBounds. apply Q.le_max_l. Qed.

(** Both paths of [calculate] take [left] from the same horizontal
    computation. *)
Lemma forced_left :
  PopupPosition.left (forceSafePosition win selectionRect popupRect)
  = calculateHorizontalPosition win selectionRect popupRect.
Proof.
  unfold forceSafePosition.
  repeat match goal with |- context [if ?c then _ else _] => destruct c end;
    reflexivity.
Qed.

Lemma calculate_left :
  PopupPosition.left (calculate win selectionRect popupRect)
  = calculateHorizontalPosition win selectionRect popupRect.
Proof.
  unfold calculate.
  destruct (calculateVerticalPosition _ _ _) as [top placement].
  destruct (hasCollision _ _ _); [apply forced_left | reflexivity].
Qed.

(** When the popup is no wider than the viewport minus both margins the
    clamp interval [[10, innerWidth - popupWidth - 10]] is not empty and
    [left] lands in it. *)
Lemma left_bounds_of_clamp :
  DOMRect.width popupRect <= Window.innerWidth win - 2 * SCREEN_MARGIN ->
  SCREEN_MARGIN <= calculateHorizontalPosition win selectionRect popupRect
  /\ calculateHorizontalPosition win selectionRect popupRect
       + DOMRect.width popupRect
     <= Window.innerWidth win - SCREEN_MARGIN.
Proof.
  intros Hw. unfold calculateHorizontalPosition, clampToHorizontalBounds.
  cbv zeta. revert Hw. unfold_config. intros Hw.
  name_minmax; split; lra.
Qed.

(** The three outcomes of the vertical step, one per branch. *)
Lemma vertical_above :
  SCREEN_MARGIN <= topPlacement ->
  calculateVerticalPosition win selectionRect popupRect
  = (topPlacement, PopupPlacement.top).
Proof.
  intros H. unfold calculateVerticalPosition. cbv zeta.
  apply Qgeb_true in H. now rewrite H.
Qed.

Lemma vertical_below :
  topPlacement < SCREEN_MARGIN ->
  bottomPlacement + DOMRect.height popupRect <= viewportHeight - SCREEN_MARGIN ->
  calculateVerticalPosition win selectionRect popupRect
  = (bottomPlacement, PopupPlacement.bottom).
Proof.
  intros Ha Hb. unfold calculateVerticalPosition. cbv zeta.
  destruct (Qgeb topPlacement SCREEN_MARGIN) eqn:E.
  - apply Qgeb_true in E. lra.
  - apply Qle_bool_iff in Hb. now rewrite Hb.
Qed.

Lemma vertical_fallback :
  topPlacement < SCREEN_MARGIN ->
  viewportHeight - SCREEN_MARGIN < bottomPlacement + DOMRect.height popupRect ->
  calculateVerticalPosition win selectionRect popupRect
  = if Qgeb (DOMRect.top selectionRect - SCREEN_MARGIN)
            (viewportHeight - DOMRect.bottom selectionRect - SCREEN_MARGIN)
    then (Qmax SCREEN_MARGIN topPlacement, PopupPlacement.top)
    else (Qmin (viewportHeight - DOMRect.height popupRect - SCREEN_MARGIN)
               bottomPlacement, PopupPlacement.bottom).
Proof.
  intros Ha Hb. unfold calculateVerticalPosition. cbv zeta.
  destruct (Qgeb topPlacement SCREEN_MARGIN) eqn:E.
  - apply Qgeb_true in E. lra.
  - destruct (Qle_boolP (bottomPlacement + DOMRect.height popupRect)
                        (viewportHeight - SCREEN_MARGIN)); [lra | reflexivity].
Qed.
(** The collision guard can only fire after the fallback branch: a
    popup placed cleanly above or below the selection is 16 pixels away
    from it. *)
Lemma guard_fires_only_when_nothing_fits :
  let left := calculateHorizontalPosition win selectionRect popupRect in
  let v := calculateVerticalPosition win selectionRect popupRect in
  hasCollision selectionRect (PopupPosition.mk (fst v) left (snd v)) popupRect = true ->
  topPlacement < SCREEN_MARGIN
  /\ viewportHeight - SCREEN_MARGIN < bottomPlacement + DOMRect.height popupRect.
Proof.
  intros left v Hc. apply hasCollision_overlaps in Hc.
  destruct Hc as [[Hc1 Hc2] _]. simpl in Hc1, Hc2.
  destruct (Qlt_le_dec topPlacement SCREEN_MARGIN) as [Ha | Ha].
  - split; [exact Ha |].
    destruct (Qlt_le_dec (viewportHeight - SCREEN_MARGIN)
                (bottomPlacement + DOMRect.height popupRect)) as [Hb | Hb];
      [exact Hb | exfalso].
    subst v. rewrite (vertical_below Ha Hb) in Hc2. simpl in Hc2.
    revert Hc2. unfold_config. lra.
  - exfalso. subst v. rewrite (vertical_above Ha) in Hc1. simpl in Hc1.
    revert Hc1. unfold_config. lra.
Qed.

Lemma forced_position_when_nothing_fits :
  topPlacement < SCREEN_MARGIN ->
  viewportHeight - SCREEN_MARGIN < bottomPlacement + DOMRect.height popupRect ->
  forceSafePosition win selectionRect popupRect
  = PopupPosition.mk
      (Qmax SCREEN_MARGIN (viewportHeight - DOMRect.height popupRect - SCREEN_MARGIN))
      (calculateHorizontalPosition win selectionRect popupRect)
      PopupPlacement.bottom.
Proof.
  intros Ha Hb. unfold forceSafePosition. cbv zeta.
  apply Qltb_true in Ha. apply Qgtb_true in Hb. now rewrite Ha, Hb.
Qed.

(** What [calculate] returns: a placement the code's own check accepts,
    or the clamped forced position. *)
Lemma calculate_result :
  let p := calculate win selectionRect popupRect in
  hasCollision selectionRect p popupRect = false
  \/ (topPlacement < SCREEN_MARGIN
      /\ viewportHeight - SCREEN_MARGIN < bottomPlacement + DOMRect.height popupRect
      /\ p = PopupPosition.mk
               (Qmax SCREEN_MARGIN
                     (viewportHeight - DOMRect.height popupRect - SCREEN_MARGIN))
               (calculateHorizontalPosition win selectionRect popupRect)
               PopupPlacement.bottom).
Proof.
  intros p. subst p. unfold calculate.
  pose proof guard_fires_only_when_nothing_fits as Hguard. simpl in Hguard.
  destruct (calculateVerticalPosition win selectionRect popupRect)
    as [top placement].
  simpl in Hguard.
  destruct (hasCollision selectionRect _ popupRect) eqn:Hc.
  - right. destruct (Hguard eq_refl) as [Ha Hb].
    repeat split; try assumption.
    now apply forced_position_when_nothing_fits.
  - left. exact Hc.
Qed.
End Calculator.

(** ** The placement scenarios *)

(** With ample room on both sides the popup goes above the selection. *)
Example scenario_selection_at_500 (px py : Q) :
  let p := PositionCalculator.calculate viewport_1000x800
             (rect 500 100 80 20) (popup_120x40 px py) in
  PopupPosition.top p == 444 /\ PopupPosition.left p == 80
  /\ PopupPosition.placement p = PopupPlacement.top.
Proof. vm_compute. repeat split; reflexivity. Qed.

(** C7: for the selection [{top:15, left:100, width:80, height:20}], a
    popup of 120 by 40 and a viewport of 1000 by 800, the above placement
    [15 - 40 - 16 = -41] is below the screen margin 10 and is rejected;
    [calculate] returns the below placement, [top = 15 + 20 + 16 = 51],
    with side [bottom] (and [left = 80]). *)
Theorem scenario_selection_at_15 (px py : Q) :
  let selectionRect := rect 15 100 80 20 in
  let popupRect := popup_120x40 px py in
  let topPlacement :=
    DOMRect.top selectionRect - DOMRect.height popupRect
      - PopupConfig.TOTAL_OFFSET in
  let p := PositionCalculator.calculate viewport_1000x800 selectionRect popupRect in
  topPlacement == -41
  /\ Qgeb topPlacement PopupConfig.SCREEN_MARGIN = false
  /\ PopupPosition.top p == 51
  /\ PopupPosition.placement p = PopupPlacement.bottom
  /\ PopupPosition.left p == 80.
Proof. vm_compute. repeat split; reflexivity. Qed.

(** ** The tie-break of the vertical fallback *)

(** The vertical step on a tie: with the popup fitting neither above nor
    below the selection and as much space above as below, it chooses side
    [top], at [max(SCREEN_MARGIN, topPlacement)]: the comparison is [>=]. *)
Lemma vertical_fallback_tie (win : Window.t) (selectionRect popupRect : DOMRect.t) :
  let viewportHeight := Window.innerHeight win in
  let topPlacement :=
    DOMRect.top selectionRect - DOMRect.height popupRect
      - PopupConfig.TOTAL_OFFSET in
  let bottomPlacement := DOMRect.bottom selectionRect + PopupConfig.TOTAL_OFFSET in
  let spaceAbove := DOMRect.top selectionRect - PopupConfig.SCREEN_MARGIN in
  let spaceBelow :=
    viewportHeight - DOMRect.bottom selectionRect - PopupConfig.SCREEN_MARGIN in
  topPlacement < PopupConfig.SCREEN_MARGIN ->
  viewportHeight - PopupConfig.SCREEN_MARGIN
    < bottomPlacement + DOMRect.height popupRect ->
  spaceAbove == spaceBelow ->
  PositionCalculator.calculateVerticalPosition win selectionRect popupRect
  = (Qmax PopupConfig.SCREEN_MARGIN topPlacement, PopupPlacement.top).
Proof.
  intros vh tp bp above below Hno_above Hno_below Htie.
  rewrite (vertical_fallback win selectionRect popupRect Hno_above Hno_below).
  fold vh above below.
  assert (Hge : Qgeb above below = true) by (apply Qgeb_true; lra).
  now rewrite Hge.
Qed.

(** The side chosen by the vertical step is final unless the collision
    guard fires; when it fires on a tie, [forceSafePosition] reports side
    [bottom]. *)
Lemma calculate_keeps_vertical_choice (win : Window.t) (selectionRect popupRect : DOMRect.t) :
  let left := PositionCalculator.calculateHorizontalPosition win selectionRect popupRect in
  let v := PositionCalculator.calculateVerticalPosition win selectionRect popupRect in
  PositionCalculator.hasCollision selectionRect
    (PopupPosition.mk (fst v) left (snd v)) popupRect = false ->
  PositionCalculator.calculate win selectionRect popupRect
  = PopupPosition.mk (fst v) left (snd v).
Proof.
  intros left v H. unfold PositionCalculator.calculate. fold left v.
  destruct v as [top placement]. simpl in H. now rewrite H.
Qed.

Example tie_with_collision_is_forced_below :
  PopupPosition.placement
    (PositionCalculator.calculate
       (Window.mk 1000 50) (rect 15 100 80 20) (popup_120x40 0 0))
  = PopupPlacement.bottom.
Proof. vm_compute. reflexivity. Qed.

(** C6 (as stated, refuted): a viewport 50 high, a selection from 15 to 35
    and a popup 40 high.  The popup fits on neither side and there are 5
    pixels of space above and below, yet [calculate] reports side
    [bottom]: the vertical step chooses [top] at 10, the collision guard
    refuses it and the forced position is on side [bottom]. *)
Lemma calculate_tie_can_report_below :
  let win := Window.mk 1000 50 in
  let selectionRect := rect 15 100 80 20 in
  let popupRect := popup_120x40 0 0 in
  let topPlacement :=
    DOMRect.top selectionRect - DOMRect.height popupRect
      - PopupConfig.TOTAL_OFFSET in
  let bottomPlacement := DOMRect.bottom selectionRect + PopupConfig.TOTAL_OFFSET in
  (topPlacement < PopupConfig.SCREEN_MARGIN
   /\ Window.innerHeight win - PopupConfig.SCREEN_MARGIN
        < bottomPlacement + DOMRect.height popupRect
   /\ DOMRect.top selectionRect - PopupConfig.SCREEN_MARGIN
      == Window.innerHeight win - DOMRect.bottom selectionRect
         - PopupConfig.SCREEN_MARGIN)
  /\ snd (PositionCalculator.calculateVerticalPosition win selectionRect popupRect)
     = PopupPlacement.top
  /\ PopupPosition.placement
       (PositionCalculator.calculate win selectionRect popupRect)
     = PopupPlacement.bottom
  /\ PopupPosition.placement
       (PositionCalculator.calculate win selectionRect popupRect)
     <> PopupPlacement.top.
Proof.
  intros win selectionRect popupRect topPlacement bottomPlacement.
  split; [repeat split |]. split; [reflexivity |].
  split; [reflexivity | discriminate].
Qed.

(** C6 (amended): when the popup fits neither above nor below the selection
    and the space above equals the space below, the comparison [>=] makes
    the vertical step choose side [top], at
    [max(SCREEN_MARGIN, topPlacement)], and [calculate] returns that
    placement, with side [top], whenever the collision guard accepts
    it. *)
Theorem calculate_tie_chooses_above_unless_guard_fires
    (win : Window.t) (selectionRect popupRect : DOMRect.t) :
  let viewportHeight := Window.innerHeight win in
  let topPlacement :=
    DOMRect.top selectionRect - DOMRect.height popupRect
      - PopupConfig.TOTAL_OFFSET in
  let bottomPlacement := DOMRect.bottom selectionRect + PopupConfig.TOTAL_OFFSET in
  let spaceAbove := DOMRect.top selectionRect - PopupConfig.SCREEN_MARGIN in
  let spaceBelow :=
    viewportHeight - DOMRect.bottom selectionRect - PopupConfig.SCREEN_MARGIN in
  let left :=
    PositionCalculator.calculateHorizontalPosition win selectionRect popupRect in
  let above :=
    PopupPosition.mk (Qmax PopupConfig.SCREEN_MARGIN topPlacement) left
      PopupPlacement.top in
  topPlacement < PopupConfig.SCREEN_MARGIN ->
  viewportHeight - PopupConfig.SCREEN_MARGIN
    < bottomPlacement + DOMRect.height popupRect ->
  spaceAbove == spaceBelow ->
  PositionCalculator.calculateVerticalPosition win selectionRect popupRect
  = (PopupPosition.top above, PopupPlacement.top)
  /\ (PositionCalculator.hasCollision selectionRect above popupRect = false ->
      PositionCalculator.calculate win selectionRect popupRect = above).
Proof.
  intros vh tp bp spaceAbove spaceBelow left above Hno_above Hno_below Htie.
  pose proof (vertical_fallback_tie win selectionRect popupRect
                Hno_above Hno_below Htie) as Hvertical.
  split; [exact Hvertical |].
  intros Hfree.
  pose proof (calculate_keeps_vertical_choice win selectionRect popupRect) as Hkeep.
  cbv zeta in Hkeep. rewrite Hvertical in Hkeep. cbn [fst snd] in Hkeep.
  exact (Hkeep Hfree).
Qed.

(** A viewport 140 high, a selection from 60 to 80 and a popup 40 high: 50
    pixels of space on either side; at [top = 10] the popup ends at 50,
    above the selection. *)
Lemma calculate_tie_chooses_above_unless_guard_fires_witness :
  let win := Window.mk 1000 140 in
  let selectionRect := rect 60 100 80 20 in
  let popupRect := popup_120x40 0 0 in
  let p := PositionCalculator.calculate win selectionRect popupRect in
  (60 - 40 - 16 < 10 /\ 140 - 10 < 80 + 16 + 40 /\ 60 - 10 == 140 - 80 - 10)
  /\ PopupPosition.placement p = PopupPlacement.top
  /\ PopupPosition.top p == 10.
Proof.
  intros win selectionRect popupRect p.
  split; [repeat split |].
  destruct (calculate_tie_chooses_above_unless_guard_fires win selectionRect popupRect)
    as [_ Hcalc]; [reflexivity | reflexivity | reflexivity |].
  assert (Heq : p = PopupPosition.mk
                      (Qmax PopupConfig.SCREEN_MARGIN
                         (DOMRect.top selectionRect - DOMRect.height popupRect
                            - PopupConfig.TOTAL_OFFSET))
                      (PositionCalculator.calculateHorizontalPosition
                         win selectionRect popupRect)
                      PopupPlacement.top)
    by (apply Hcalc; reflexivity).
  rewrite Heq. split; reflexivity.
Defined.

(** ** The horizontal position *)

(** C10: the [left] returned by [calculate] is at least [SCREEN_MARGIN],
    on the normal path and on the forced path alike; when the popup is
    wider than the viewport minus both margins, [left] is exactly
    [SCREEN_MARGIN], so the popup's left edge stays inside the viewport and
    only its right edge passes the right margin. *)
Theorem left_at_least_screen_margin (win : Window.t) (selectionRect popupRect : DOMRect.t) :
  let p := PositionCalculator.calculate win selectionRect popupRect in
  let forced := PositionCalculator.forceSafePosition win selectionRect popupRect in
  PopupConfig.SCREEN_MARGIN <= PopupPosition.left p
  /\ PopupConfig.SCREEN_MARGIN <= PopupPosition.left forced
  /\ (Window.innerWidth win - 2 * PopupConfig.SCREEN_MARGIN < DOMRect.width popupRect ->
      PopupPosition.left p = PopupConfig.SCREEN_MARGIN
      /\ PopupPosition.left forced = PopupConfig.SCREEN_MARGIN
      /\ 0 < PopupPosition.left p
      /\ Window.innerWidth win - PopupConfig.SCREEN_MARGIN
           < PopupPosition.left p + DOMRect.width popupRect).
Proof.
  intros p forced.
  assert (Hp : PopupPosition.left p
               = PositionCalculator.calculateHorizontalPosition win selectionRect popupRect)
    by apply calculate_left.
  assert (Hf : PopupPosition.left forced
               = PositionCalculator.calculateHorizontalPosition win selectionRect popupRect)
    by apply forced_left.
  rewrite Hp, Hf. unfold PositionCalculator.calculateHorizontalPosition.
  split; [apply clamp_lower_bound |]. split; [apply clamp_lower_bound |].
  intros Hwide.
  assert (Hten : PositionCalculator.clampToHorizontalBounds win
                   (DOMRect.left selectionRect + DOMRect.width selectionRect / 2
                      - DOMRect.width popupRect / 2) (DOMRect.width popupRect)
                 = PopupConfig.SCREEN_MARGIN).
  { unfold PositionCalculator.clampToHorizontalBounds.
    set (m := Qmin _ _).
    assert (Hm : m < PopupConfig.SCREEN_MARGIN).
    { subst m. unfold_config. name_minmax; lra. }
    unfold Qmax, GenericMinMax.gmax.
    destruct (PopupConfig.SCREEN_MARGIN ?= m) eqn:E; try reflexivity.
    apply Qlt_alt in E. lra. }
  rewrite Hten. unfold_config. repeat split; lra.
Qed.

(** A popup 120 wide in a window 100 wide. *)
Lemma left_at_least_screen_margin_witness :
  let win := Window.mk 100 800 in
  let p := PositionCalculator.calculate win (rect 500 100 80 20) (popup_120x40 0 0) in
  100 - 2 * 10 < 120
  /\ PopupPosition.left p = PopupConfig.SCREEN_MARGIN
  /\ 100 - 10 < PopupPosition.left p + 120.
Proof.
  intros win p.
  destruct (left_at_least_screen_margin win (rect 500 100 80 20) (popup_120x40 0 0))
    as (_ & _ & Hwide).
  assert (Hgt : 100 - 2 * 10 < 120) by reflexivity.
  destruct (Hwide Hgt) as (Heq & _ & _ & Hright).
  split; [exact Hgt |]. split; [exact Heq | exact Hright].
Defined.

(** ** Collisions with the selection *)

(** C1: the placement returned by [calculate] is meant never to overlap
    the selection, and the collision guard with [forceSafePosition] is
    there to ensure it.  For the whole-screen selection the code falls
    short: the vertical step proposes [top = 750], the guard refuses it,
    and [forceSafePosition] answers with the very same position,
    [{top: 750, left: 340, placement: bottom}], which is returned without
    a second check and lies inside the selection's box. *)
Theorem calculate_can_overlap_selection :
  let popupRect := popup_120x40 0 0 in
  let left := PositionCalculator.calculateHorizontalPosition viewport_1000x800
                whole_screen_selection popupRect in
  let v := PositionCalculator.calculateVerticalPosition viewport_1000x800
             whole_screen_selection popupRect in
  let p := PositionCalculator.calculate viewport_1000x800
             whole_screen_selection popupRect in
  (fst v == 750 /\ snd v = PopupPlacement.bottom)
  /\ PositionCalculator.hasCollision whole_screen_selection
       (PopupPosition.mk (fst v) left (snd v)) popupRect = true
  /\ p = PositionCalculator.forceSafePosition viewport_1000x800
           whole_screen_selection popupRect
  /\ (PopupPosition.top p == 750 /\ PopupPosition.left p == 340
      /\ PopupPosition.placement p = PopupPlacement.bottom)
  /\ PositionCalculator.hasCollision whole_screen_selection p popupRect = true
  /\ overlaps whole_screen_selection p popupRect.
Proof.
  intros popupRect left v p.
  assert (H : PositionCalculator.hasCollision whole_screen_selection p popupRect = true)
    by (vm_compute; reflexivity).
  split; [split; vm_compute; reflexivity |].
  split; [vm_compute; reflexivity |].
  split; [reflexivity |].
  split; [vm_compute; repeat split; reflexivity |].
  split; [exact H | apply hasCollision_overlaps, H].
Qed.

(** Where an overlap can come from: only from the forced position, when
    the popup fits neither above the selection
    ([selectionTop - popupHeight - 16 < 10]) nor below it
    ([selectionBottom + 16 + popupHeight > viewportHeight - 10]); every
    other result is free of overlap. *)
Lemma calculate_avoids_selection_when_it_fits
    (win : Window.t) (selectionRect popupRect : DOMRect.t) :
  let viewportHeight := Window.innerHeight win in
  let popupHeight := DOMRect.height popupRect in
  let p := PositionCalculator.calculate win selectionRect popupRect in
  ~ overlaps selectionRect p popupRect
  \/ (DOMRect.top selectionRect - popupHeight - PopupConfig.TOTAL_OFFSET
        < PopupConfig.SCREEN_MARGIN
      /\ viewportHeight - PopupConfig.SCREEN_MARGIN
           < DOMRect.bottom selectionRect + PopupConfig.TOTAL_OFFSET + popupHeight
      /\ p = PopupPosition.mk
               (Qmax PopupConfig.SCREEN_MARGIN
                     (viewportHeight - popupHeight - PopupConfig.SCREEN_MARGIN))
               (PositionCalculator.calculateHorizontalPosition
                  win selectionRect popupRect)
               PopupPlacement.bottom).
Proof.
  intros vh ph p.
  destruct (calculate_result win selectionRect popupRect) as [Hfree | Hforced].
  - left. fold p in Hfree. rewrite <- hasCollision_overlaps, Hfree. discriminate.
  - right. exact Hforced.
Qed.

(** Hence no overlap whenever the popup fits on one side of the selection. *)
Corollary calculate_avoids_selection_above_or_below
    (win : Window.t) (selectionRect popupRect : DOMRect.t) :
  PopupConfig.SCREEN_MARGIN
    <= DOMRect.top selectionRect - DOMRect.height popupRect - PopupConfig.TOTAL_OFFSET
  \/ DOMRect.bottom selectionRect + PopupConfig.TOTAL_OFFSET + DOMRect.height popupRect
     <= Window.innerHeight win - PopupConfig.SCREEN_MARGIN ->
  ~ overlaps selectionRect
      (PositionCalculator.calculate win selectionRect popupRect) popupRect.
Proof.
  intros Hfits.
  destruct (calculate_result win selectionRect popupRect) as [Hfree | (Ha & Hb & _)].
  - rewrite <- hasCollision_overlaps, Hfree. discriminate.
  - destruct Hfits; lra.
Qed.

(** ** Staying inside the viewport *)

(** C2 (as stated, refuted): the popup is smaller than the viewport minus
    both margins, yet for the scrolled-away selection [calculate] places
    it at [top = 1944], outside the viewport: the above placement is
    accepted on [top >= 10] alone. *)
Lemma calculate_can_leave_viewport :
  let win := viewport_1000x800 in
  let popupRect := popup_120x40 0 0 in
  let p := PositionCalculator.calculate win selection_scrolled_away popupRect in
  (DOMRect.height popupRect <= Window.innerHeight win - 2 * PopupConfig.SCREEN_MARGIN
   /\ DOMRect.width popupRect <= Window.innerWidth win - 2 * PopupConfig.SCREEN_MARGIN)
  /\ PopupPosition.top p == 1944
  /\ ~ withinViewport win p popupRect.
Proof.
  intros win popupRect p. split; [split; vm_compute; discriminate |].
  split; [vm_compute; reflexivity |].
  intros (_ & _ & Hbottom). vm_compute in Hbottom. apply Hbottom. reflexivity.
Qed.

(** C2 (amended): when [popupHeight <= viewportHeight - 2 * 10] and
    [popupWidth <= viewportWidth - 2 * 10], and moreover the selection is
    not further than 6 pixels outside the viewport vertically
    ([selectionBottom + 16 >= 10] and [selectionTop - 16 <=
    viewportHeight - 10], as for every selection visible in the viewport),
    the placement returned by [calculate] keeps the popup's box within
    [[10, viewport - 10]] on both axes. *)
Theorem calculate_within_viewport
    (win : Window.t) (selectionRect popupRect : DOMRect.t) :
  DOMRect.height popupRect
    <= Window.innerHeight win - 2 * PopupConfig.SCREEN_MARGIN ->
  DOMRect.width popupRect
    <= Window.innerWidth win - 2 * PopupConfig.SCREEN_MARGIN ->
  PopupConfig.SCREEN_MARGIN
    <= DOMRect.bottom selectionRect + PopupConfig.TOTAL_OFFSET ->
  DOMRect.top selectionRect - PopupConfig.TOTAL_OFFSET
    <= Window.innerHeight win - PopupConfig.SCREEN_MARGIN ->
  withinViewport win
    (PositionCalculator.calculate win selectionRect popupRect) popupRect.
Proof.
  intros Hh Hw Hsb Hst. unfold withinViewport. split.
  - (* horizontal: the clamp interval is not empty *)
    destruct (left_bounds_of_clamp win selectionRect popupRect Hw) as [Hl Hr].
    rewrite calculate_left. split; assumption.
  - (* vertical: one case per branch of the code *)
    unfold PositionCalculator.calculate.
    destruct (PositionCalculator.calculateVerticalPosition _ _ _)
      as [top placement] eqn:Hv.
    destruct (PositionCalculator.hasCollision _ _ _).
    + unfold PositionCalculator.forceSafePosition. cbv zeta.
      name_edges selectionRect.
      destruct win as [vw vh], popupRect as [px py pw ph]; simpl in *.
      unfold_config. split_comparisons; simpl; name_minmax; split; lra.
    + unfold PositionCalculator.calculateVerticalPosition in Hv. cbv zeta in Hv.
      name_edges selectionRect.
      destruct win as [vw vh], popupRect as [px py pw ph]; simpl in *.
      unfold_config. split_comparisons; injection Hv as <- <-;
        name_minmax; split; lra.
Qed.

(** A selection in the middle of the viewport. *)
Lemma calculate_within_viewport_witness :
  let win := viewport_1000x800 in
  let selectionRect := rect 500 100 80 20 in
  let popupRect := popup_120x40 0 0 in
  (40 <= 800 - 2 * 10 /\ 120 <= 1000 - 2 * 10
   /\ 10 <= 520 + 16 /\ 500 - 16 <= 800 - 10)
  /\ withinViewport win
       (PositionCalculator.calculate win selectionRect popupRect) popupRect.
Proof.
  intros win selectionRect popupRect. split.
  - repeat split; discriminate.
  - apply (calculate_within_viewport win selectionRect popupRect);
      vm_compute; discriminate.
Defined.

(** ** The bracket rewrite *)

Section BracketRewrite.
Import SelectionHandler.

Lemma withoutBrackets_app (s t : JSString) :
  withoutBrackets (s ++ t) = withoutBrackets s ++ withoutBrackets t.
Proof. unfold withoutBrackets. apply List.filter_app. Qed.

Lemma startsWith_nil (s : JSString) : startsWith [] s = true.
Proof. destruct s; reflexivity. Qed.

(** While a match is being dropped, what is still to be dropped is the
    rest of the pattern.  If the pattern consists of brackets, removing
    its matches removes brackets only. *)
Lemma removeAllFrom_withoutBrackets (pattern : JSString) :
  pattern <> [] ->
  forallb isBracket pattern = true ->
  forall (s rest seen : JSString),
    pattern = seen ++ rest ->
    startsWith rest s = true ->
    withoutBrackets (removeAllFrom pattern (length rest) s) = withoutBrackets s.
Proof.
  intros Hne Hpat. induction s as [| c s IH]; intros rest seen Hsplit Hstart.
  - reflexivity.
  - destruct rest as [| p rest].
    + (* no match in progress *)
      cbn [length removeAllFrom].
      destruct (startsWith pattern (c :: s)) eqn:Hmatch.
      * destruct pattern as [| p pattern'].
        -- now contradiction Hne.
        -- cbn [startsWith] in Hmatch. apply andb_true_iff in Hmatch.
           destruct Hmatch as [Hpc Hrest]. apply N.eqb_eq in Hpc. subst c.
           cbn [length pred].
           rewrite (IH pattern' [p] eq_refl Hrest).
           cbn [forallb] in Hpat. apply andb_true_iff in Hpat.
           destruct Hpat as [Hp _].
           unfold withoutBrackets. cbn [List.filter]. now rewrite Hp.
      * unfold withoutBrackets in *. cbn [List.filter].
        pose proof (IH [] pattern (eq_sym (app_nil_r pattern)) (startsWith_nil s)) as IH0.
        cbn [length] in IH0. now rewrite IH0.
    + (* dropping the code unit [p] of a match *)
      cbn [startsWith] in Hstart. apply andb_true_iff in Hstart.
      destruct Hstart as [Hpc Hrest]. apply N.eqb_eq in Hpc. subst c.
      cbn [length removeAllFrom].
      rewrite (IH rest (seen ++ [p])); [| now rewrite <- app_assoc | exact Hrest].
      assert (Hp : isBracket p = true).
      { rewrite forallb_forall in Hpat. apply Hpat. subst pattern.
        apply in_or_app. right. left. reflexivity. }
      unfold withoutBrackets. cbn [List.filter]. now rewrite Hp.
Qed.

Lemma removeAll_withoutBrackets (pattern s : JSString) :
  pattern <> [] ->
  forallb isBracket pattern = true ->
  withoutBrackets (removeAll pattern s) = withoutBrackets s.
Proof.
  intros Hne Hpat. unfold removeAll.
  apply (removeAllFrom_withoutBrackets pattern Hne Hpat s [] pattern).
  - symmetry. apply app_nil_r.
  - apply startsWith_nil.
Qed.

(** Removing the matches of a one-unit pattern is a filter. *)
Lemma removeAll_single (c : N) (s : JSString) :
  removeAll [c] s = List.filter (fun x => negb (c =? x)%N) s.
Proof.
  unfold removeAll. induction s as [| x s IH]; [reflexivity |].
  cbn [removeAllFrom startsWith List.filter length pred].
  rewrite ?startsWith_nil, ?andb_true_r.
  destruct (c =? x)%N; cbn [negb]; now rewrite IH.
Qed.

Lemma remove_single_brackets (s : JSString) :
  removeAll (js "]") (removeAll (js "[") s) = withoutBrackets s.
Proof.
  change (js "]") with [RIGHT_BRACKET]; change (js "[") with [LEFT_BRACKET].
  rewrite !removeAll_single. unfold withoutBrackets, isBracket.
  induction s as [| x s IH]; [reflexivity |].
  cbn [List.filter]. rewrite (N.eqb_sym x LEFT_BRACKET), (N.eqb_sym x RIGHT_BRACKET).
  destruct (LEFT_BRACKET =? x)%N; cbn [negb orb]; [exact IH |].
  cbn [List.filter]. destruct (RIGHT_BRACKET =? x)%N; cbn [negb]; now rewrite IH.
Qed.

(** The code's chain of four replacements removes exactly the brackets. *)
Lemma linkedText_withoutBrackets (s : JSString) :
  linkedText s = js "[[" ++ withoutBrackets s ++ js "]]".
Proof.
  unfold linkedText. rewrite remove_single_brackets.
  rewrite !removeAll_withoutBrackets; try reflexivity; discriminate.
Qed.

Lemma withoutBrackets_no_bracket (s : JSString) :
  forallb (fun c => negb (isBracket c)) (withoutBrackets s) = true.
Proof.
  unfold withoutBrackets. apply forallb_forall. intros c Hc.
  apply List.filter_In in Hc. tauto.
Qed.

Lemma withoutBrackets_idempotent (s : JSString) :
  withoutBrackets (withoutBrackets s) = withoutBrackets s.
Proof.
  unfold withoutBrackets. induction s as [| c s IH]; [reflexivity |].
  cbn [List.filter]. destruct (negb (isBracket c)) eqn:Hc; [| exact IH].
  cbn [List.filter]. now rewrite Hc, IH.
Qed.

Lemma occurrences_app (c : N) (s t : JSString) :
  occurrences c (s ++ t) = (occurrences c s + occurrences c t)%nat.
Proof. unfold occurrences. now rewrite List.filter_app, length_app. Qed.

Lemma occurrences_withoutBrackets (c : N) (s : JSString) :
  isBracket c = true -> occurrences c (withoutBrackets s) = 0%nat.
Proof.
  intros Hc. unfold occurrences, withoutBrackets.
  induction s as [| x s IH]; [reflexivity |].
  cbn [List.filter]. destruct (isBracket x) eqn:Hx; cbn [negb]; [exact IH |].
  cbn [List.filter]. destruct (N.eqb_spec c x) as [-> | _]; [congruence | exact IH].
Qed.
End BracketRewrite.

(** ** Valid selections *)

Lemma trimStart_nil_iff (s : JSString) :
  trimStart s = [] <-> forallb isWhiteSpace s = true.
Proof.
  induction s as [| c s IH]; cbn [trimStart forallb]; [tauto |].
  destruct (isWhiteSpace c); cbn [andb]; [exact IH |].
  split; discriminate.
Qed.

Lemma forallb_rev {A : Type} (f : A -> bool) (l : list A) :
  forallb f (rev l) = forallb f l.
Proof.
  induction l as [| a l IH]; [reflexivity |].
  cbn [rev forallb]. rewrite forallb_app, IH. cbn [forallb].
  rewrite andb_true_r. apply andb_comm.
Qed.

(** [trim] leaves nothing exactly when every code unit is white space. *)
Lemma trim_nil_iff (s : JSString) :
  trim s = [] <-> forallb isWhiteSpace s = true.
Proof.
  unfold trim, trimEnd. rewrite <- trimStart_nil_iff. split.
  - intros Hnil. destruct (trimStart s) as [| c rest] eqn:Hstart; [reflexivity |].
    exfalso.
    assert (Hrev : trimStart (rev (c :: rest)) = []).
    { rewrite <- (rev_involutive (trimStart _)), Hnil. reflexivity. }
    apply trimStart_nil_iff in Hrev. rewrite forallb_rev in Hrev.
    cbn [forallb] in Hrev. apply andb_true_iff in Hrev. destruct Hrev as [Hc _].
    (* the first unit kept by [trimStart] is not white space *)
    clear - Hstart Hc. induction s as [| d s IH]; [discriminate |].
    cbn [trimStart] in Hstart. destruct (isWhiteSpace d) eqn:Hd; [auto |].
    injection Hstart as -> _. congruence.
  - intros ->. reflexivity.
Qed.

(** A selection is invalid exactly when it is empty or consists of white
    space only. *)
Lemma hasValidSelection_false_iff {E : Type} `{Editor E} (s : State E) :
  eval SelectionHandler.hasValidSelection s = false
  <-> forallb isWhiteSpace (eval SelectionHandler.getSelectedText s) = true.
Proof.
  rewrite <- trim_nil_iff.
  unfold SelectionHandler.hasValidSelection.
  unfold eval at 1, mbind, M_bind, mret, M_ret. unfold eval.
  destruct (SelectionHandler.getSelectedText s) as [text s'].
  cbn [fst]. destruct (trim text); cbn; split; congruence || discriminate.
Qed.

(** C3: the rewrite is idempotent, [linkedText (linkedText s) =
    linkedText s] for every string [s]; it maps [[[x]]] to [[[x]]], [[x]]
    to [[[x]]] and [te[x]t] to [[[text]]]. *)
Theorem linkedText_idempotent (s : JSString) :
  SelectionHandler.linkedText (SelectionHandler.linkedText s)
  = SelectionHandler.linkedText s
  /\ SelectionHandler.linkedText (js "[[x]]") = js "[[x]]"
  /\ SelectionHandler.linkedText (js "[x]") = js "[[x]]"
  /\ SelectionHandler.linkedText (js "te[x]t") = js "[[text]]".
Proof.
  split; [| repeat split; reflexivity].
  rewrite !linkedText_withoutBrackets, !withoutBrackets_app.
  rewrite withoutBrackets_idempotent.
  change (withoutBrackets (js "[[")) with (@nil N).
  change (withoutBrackets (js "]]")) with (@nil N).
  now rewrite app_nil_r.
Qed.

(** C4: whatever brackets the input contains, the output of the rewrite
    starts with [[[], ends with []]], has no bracket in between, and so
    contains exactly two opening and two closing brackets; [a[b]]c[[d]
    becomes [[[abcd]]]. *)
Theorem linkedText_brackets_only_at_ends (s : JSString) :
  let out := SelectionHandler.linkedText s in
  take 2 out = [LEFT_BRACKET; LEFT_BRACKET]
  /\ drop (length out - 2) out = [RIGHT_BRACKET; RIGHT_BRACKET]
  /\ forallb (fun c => negb (isBracket c)) (drop 2 (take (length out - 2) out)) = true
  /\ occurrences LEFT_BRACKET out = 2%nat
  /\ occurrences RIGHT_BRACKET out = 2%nat
  /\ SelectionHandler.linkedText (js "a[b]]c[[d") = js "[[abcd]]".
Proof.
  intros out. subst out. rewrite linkedText_withoutBrackets.
  set (inner := withoutBrackets s).
  assert (Hlen : (length (js "[[" ++ inner ++ js "]]") - 2
                  = length (js "[[" ++ inner))%nat).
  { rewrite app_assoc, (length_app _ (js "]]")). cbn [js length map list_ascii_of_string].
    apply Nat.add_sub. }
  rewrite Hlen. split; [reflexivity |].
  rewrite (app_assoc (js "[[") inner (js "]]")).
  rewrite drop_app_length, take_app_length.
  split; [reflexivity |]. split; [apply withoutBrackets_no_bracket |].
  rewrite <- app_assoc, !occurrences_app.
  unfold inner. rewrite !occurrences_withoutBrackets by reflexivity.
  repeat split; reflexivity.
Qed.

(** C9: with an editor bound and a non-empty text [s] selected in it,
    [convertToLink] replaces the selection by [[[]], then [s] without its
    brackets, then []]]: the other code units of [s] are kept, in order,
    and nothing is added between the brackets.  Nothing else changes. *)
Theorem convertToLink_replaces_selection
    {E : Type} `{Editor E} (s : State E) (ed : nat) (e : E) :
  editor (selectionHandler s) = Some ed ->
  editors (host s) !! ed = Some e ->
  getSelection e <> [] ->
  exec SelectionHandler.convertToLink s
  = withHost
      (withEditors
         (<[ed := replaceSelection
                    (js "[[" ++ withoutBrackets (getSelection e) ++ js "]]") e]>
            (editors (host s)))
         (host s)) s.
Proof.
  intros Hbound Hobj Hsel.
  unfold exec, SelectionHandler.convertToLink, SelectionHandler.getSelectedText.
  unfold mbind, M_bind, mret, M_ret, gets, modify. cbv beta iota zeta.
  repeat (first [rewrite Hbound | rewrite Hobj]; cbv beta iota zeta).
  rewrite <- linkedText_withoutBrackets.
  destruct (getSelection e) as [| c text] eqn:Htext; [contradiction |].
  cbv beta iota zeta. now rewrite Hobj.
Qed.

Lemma convertToLink_replaces_selection_witness :
  (editor (selectionHandler example_state) = Some 0%nat
   /\ editors (host example_state) !! 0%nat = Some example_buffer
   /\ getSelection example_buffer <> [])
  /\ Buffer.text <$> editors (host (exec SelectionHandler.convertToLink example_state))
     = [js "see [[abcd]] there"].
Proof.
  split; [repeat split; discriminate |].
  rewrite (convertToLink_replaces_selection example_state 0 example_buffer);
    [reflexivity | reflexivity | reflexivity | discriminate].
Defined.

(** ** The presenter without a popup *)

(** Unfold the monadic plumbing of a method. *)
Ltac run :=
  unfold exec, eval, mbind, M_bind, mret, M_ret, gets, modify;
  cbv beta iota zeta.

Lemma hide_then_not_exists {E : Type} (s : State E) :
  eval PopupManager.exists_ (exec PopupManager.hide s) = false.
Proof.
  unfold PopupManager.exists_, PopupManager.hide, setBody. run.
  destruct (popup (popupManager s)) as [el |] eqn:Hheld.
  - reflexivity.
  - cbn. now rewrite Hheld.
Qed.

(** C8: while no popup element is held, [hide()], [show()] and
    [position()] leave everything as it is, [getElement()] returns [null]
    and [exists()] is false; and after [hide()], in any state, [exists()]
    is false. *)
Theorem presenter_without_popup_is_idle
    {E : Type} (s : State E) (position : PopupPosition.t) :
  popup (popupManager s) = None ->
  exec PopupManager.hide s = s
  /\ exec PopupManager.show s = s
  /\ exec (PopupManager.position position) s = s
  /\ eval PopupManager.getElement s = None
  /\ eval PopupManager.exists_ s = false
  /\ (forall s' : State E,
        eval PopupManager.exists_ (exec PopupManager.hide s') = false).
Proof.
  intros Hnone.
  unfold PopupManager.hide, PopupManager.show, PopupManager.position,
    PopupManager.getElement, PopupManager.exists_.
  run. rewrite Hnone. repeat split; try reflexivity.
  apply hide_then_not_exists.
Qed.

(** Right after [onload]. *)
Lemma presenter_without_popup_is_idle_witness :
  let s := withPopup None example_state in
  popup (popupManager s) = None
  /\ exec PopupManager.hide s = s
  /\ exec PopupManager.show s = s
  /\ eval PopupManager.exists_ s = false.
Proof.
  intros s.
  destruct (presenter_without_popup_is_idle s (PopupPosition.mk 0 0 PopupPlacement.top))
    as (Hhide & Hshow & _ & _ & Hexists & _); [reflexivity |].
  repeat split; assumption.
Defined.

(** ** The popup and the validity of the selection *)

Section ControllerInvariant.
Context {E : Type} `{Editor E}.
Import TextSelectionLinkerPlugin.

Implicit Types s : State E.

Lemma samePopupAndSelection_refl s : samePopupAndSelection s s.
Proof. repeat split. Qed.

Lemma samePopupAndSelection_trans s1 s2 s3 :
  samePopupAndSelection s1 s2 -> samePopupAndSelection s2 s3 ->
  samePopupAndSelection s1 s3.
Proof.
  intros (? & ? & ? & ?) (? & ? & ? & ?). repeat split; congruence.
Qed.

(** Validity of the selection only depends on the bound editor and on
    the host. *)
Lemma hasValidSelection_ext s s' :
  selectionHandler s' = selectionHandler s -> host s' = host s ->
  eval SelectionHandler.hasValidSelection s'
  = eval SelectionHandler.hasValidSelection s.
Proof.
  intros Hsel Hhost.
  unfold SelectionHandler.hasValidSelection, SelectionHandler.getSelectedText.
  run. rewrite Hsel.
  destruct (editor (selectionHandler s)) as [ed |]; [| reflexivity].
  cbv beta iota zeta. rewrite Hhost.
  destruct (editors (host s) !! ed); reflexivity.
Qed.

Lemma hasValidSelection_state s :
  exec SelectionHandler.hasValidSelection s = s.
Proof.
  unfold SelectionHandler.hasValidSelection, SelectionHandler.getSelectedText.
  run.
  destruct (editor (selectionHandler s)) as [ed |]; [| reflexivity].
  destruct (editors (host s) !! ed); reflexivity.
Qed.

Lemma invariant_same s s' :
  samePopupAndSelection s s' ->
  popupHasSelection s /\ onlyHeldPopupInBody s ->
  popupHasSelection s' /\ onlyHeldPopupInBody s'.
Proof.
  intros (Hp & Hs & Hb & Hh) [Hvalid Hbody]. split.
  - intros el Hel. rewrite (hasValidSelection_ext s s' Hs Hh).
    apply (Hvalid el). congruence.
  - intros el Hel. rewrite Hp. apply Hbody. congruence.
Qed.

Lemma noPopup_invariant s :
  noPopup s -> popupHasSelection s /\ onlyHeldPopupInBody s.
Proof.
  intros [Hnone Hbody]. split; intros el Hel.
  - congruence.
  - rewrite Hbody in Hel. destruct Hel.
Qed.

(** *** What [hide] does *)

Lemma removeChild_only (el : nat) (nodes : list nat) :
  (forall x, In x nodes -> x = el) -> removeChild el nodes = [].
Proof.
  intros Honly. unfold removeChild.
  induction nodes as [| n nodes IH]; [reflexivity |].
  cbn [List.filter]. rewrite (Honly n (or_introl eq_refl)), Nat.eqb_refl.
  cbn [negb]. apply IH. intros x Hx. apply Honly. now right.
Qed.

Lemma hide_noPopup s :
  onlyHeldPopupInBody s -> noPopup (exec PopupManager.hide s).
Proof.
  intros Hbody. unfold PopupManager.hide, setBody. run.
  destruct (popup (popupManager s)) as [el |] eqn:Hheld; cbn.
  - split; [reflexivity |]. apply removeChild_only.
    intros x Hx. specialize (Hbody x Hx). congruence.
  - split; [exact Hheld |].
    destruct (body (page s)) as [| n nodes] eqn:Hnodes; [reflexivity |].
    specialize (Hbody n). rewrite Hnodes, Hheld in Hbody.
    discriminate (Hbody (or_introl eq_refl)).
Qed.

Lemma hide_selection s :
  selectionHandler (exec PopupManager.hide s) = selectionHandler s
  /\ host (exec PopupManager.hide s) = host s.
Proof.
  unfold PopupManager.hide, setBody. run.
  destruct (popup (popupManager s)); split; reflexivity.
Qed.

Lemma hide_elements s :
  elements (page (exec PopupManager.hide s)) = elements (page s).
Proof.
  unfold PopupManager.hide, setBody. run.
  now destruct (popup (popupManager s)).
Qed.

(** *** Running one method after another *)

Lemma exec_bind {A B : Type} (m : M E A) (f : A -> M E B) s :
  exec (m ≫= f) s = exec (f (eval m s)) (exec m s).
Proof. unfold exec, eval, mbind, M_bind. now destruct (m s). Qed.

Lemma eval_bind {A B : Type} (m : M E A) (f : A -> M E B) s :
  eval (m ≫= f) s = eval (f (eval m s)) (exec m s).
Proof. unfold exec, eval, mbind, M_bind. now destruct (m s). Qed.

Lemma exec_gets {A : Type} (f : State E -> A) s : exec (gets f) s = s.
Proof. reflexivity. Qed.

Lemma eval_gets {A : Type} (f : State E -> A) s : eval (gets f) s = f s.
Proof. reflexivity. Qed.

Lemma exec_modify (f : State E -> State E) s : exec (modify f) s = f s.
Proof. reflexivity. Qed.

Lemma exec_ret {A : Type} (a : A) s : exec (mret a : M E A) s = s.
Proof. reflexivity. Qed.

(** *** Methods that touch neither the popup reference, nor the
    document's children, nor the selection *)

Lemma updateElement_same el f s :
  samePopupAndSelection s (exec (updateElement el f) s).
Proof.
  unfold updateElement. rewrite exec_modify.
  destruct (elements (page s) !! el); repeat split.
Qed.

Lemma position_same pos s :
  samePopupAndSelection s (exec (PopupManager.position pos) s).
Proof.
  unfold PopupManager.position. rewrite exec_bind, exec_gets, eval_gets.
  destruct (popup (popupManager s)) as [el |].
  - apply updateElement_same.
  - apply samePopupAndSelection_refl.
Qed.

Lemma requestAnimationFrame_same callback s :
  samePopupAndSelection s (exec (requestAnimationFrame callback) s).
Proof. repeat split. Qed.

Lemma setTimeout_same callback s :
  samePopupAndSelection s (exec (setTimeout callback) s).
Proof. repeat split. Qed.

Lemma withProcessing_same b s : samePopupAndSelection s (withProcessing b s).
Proof. repeat split. Qed.

Lemma positionPopup_same s : samePopupAndSelection s (exec positionPopup s).
Proof.
  unfold positionPopup, SelectionHandler.getSelectionRect, PopupManager.getElement.
  rewrite !exec_bind, !exec_gets, !eval_gets.
  destruct (selectionRect (host s)) as [rect |];
    [| apply samePopupAndSelection_refl].
  destruct (popup (popupManager s)) as [el |];
    [| apply samePopupAndSelection_refl].
  rewrite !exec_bind, !exec_gets, !eval_gets. apply position_same.
Qed.

(** *** What [showPopup] does *)

Lemma showPopup_result s :
  onlyHeldPopupInBody s ->
  let s' := exec showPopup s in
  let el := length (elements (page s)) in
  popup (popupManager s') = Some el
  /\ body (page s') = [el]
  /\ selectionHandler s' = selectionHandler s
  /\ host s' = host s.
Proof.
  intros Hbody s' el. subst s'. unfold showPopup.
  rewrite exec_bind, exec_modify.
  assert (Hbody1 : onlyHeldPopupInBody (withProcessing true s)) by exact Hbody.
  rewrite exec_bind.
  pose proof (hide_noPopup _ Hbody1) as [Hnone Hempty].
  pose proof (hide_selection (withProcessing true s)) as [Hsel Hhost].
  pose proof (hide_elements (withProcessing true s)) as Helems.
  set (s2 := exec PopupManager.hide (withProcessing true s)) in *.
  unfold PopupManager.create, PopupManager.show, createElement,
    requestAnimationFrame, setBody.
  run. cbn. rewrite Hempty, Helems, Hsel, Hhost. repeat split.
Qed.

(** *** The handlers keep the invariant *)

Local Abbreviation invariant := controllerInvariant.

Lemma hide_invariant s :
  onlyHeldPopupInBody s -> invariant (exec PopupManager.hide s).
Proof. intros Hbody. now apply noPopup_invariant, hide_noPopup. Qed.

Lemma showPopup_invariant s :
  onlyHeldPopupInBody s ->
  eval SelectionHandler.hasValidSelection s = true ->
  invariant (exec showPopup s).
Proof.
  intros Hbody Hvalid.
  destruct (showPopup_result s Hbody) as (Hheld & Hnodes & Hsel & Hhost).
  split.
  - intros el _. now rewrite (hasValidSelection_ext s _ Hsel Hhost).
  - intros el Hel. rewrite Hnodes in Hel. destruct Hel as [<- | []].
    exact Hheld.
Qed.

Lemma checkSelection_invariant s :
  invariant s -> invariant (exec checkSelection s).
Proof.
  intros Hinv. unfold checkSelection.
  rewrite exec_bind, exec_gets, eval_gets.
  destruct (isProcessing s); [exact Hinv |].
  rewrite exec_bind, exec_gets, eval_gets.
  destruct (activeEditor (host s)) as [ed |];
    [| apply hide_invariant, Hinv].
  unfold SelectionHandler.setEditor.
  rewrite exec_bind, exec_modify, exec_bind, hasValidSelection_state.
  assert (Hbody : onlyHeldPopupInBody (withEditor (Some ed) s)) by apply Hinv.
  destruct (eval SelectionHandler.hasValidSelection (withEditor (Some ed) s))
    eqn:Hvalid.
  - now apply showPopup_invariant.
  - now apply hide_invariant.
Qed.

(** [handleSelectionChange] re-establishes the first half of the
    invariant whatever happened to the selection. *)
Lemma handleSelectionChange_invariant s :
  onlyHeldPopupInBody s -> invariant (exec handleSelectionChange s).
Proof.
  intros Hbody. unfold handleSelectionChange, PopupManager.exists_.
  rewrite exec_bind, exec_gets, eval_gets.
  destruct (popup (popupManager s)) as [el |] eqn:Hheld.
  - rewrite exec_bind, hasValidSelection_state.
    destruct (eval SelectionHandler.hasValidSelection s) eqn:Hvalid; cbn [negb].
    + split; [intros el' _; exact Hvalid | exact Hbody].
    + now apply hide_invariant.
  - split; [| exact Hbody]. intros el Hel. rewrite exec_ret in Hel. congruence.
Qed.

Lemma handleScrollOrResize_invariant s :
  invariant s -> invariant (exec handleScrollOrResize s).
Proof.
  intros Hinv. unfold handleScrollOrResize, PopupManager.exists_.
  rewrite exec_bind, exec_gets, eval_gets.
  destruct (popup (popupManager s)) as [el |] eqn:Hheld; [| exact Hinv].
  unfold updatePopupPosition, SelectionHandler.getSelectionRect,
    PopupManager.getElement.
  rewrite !exec_bind, !exec_gets, !eval_gets, Hheld.
  destruct (selectionRect (host s)) as [rect |];
    [| apply hide_invariant, Hinv].
  rewrite !exec_bind, !exec_gets, !eval_gets.
  eapply invariant_same; [apply position_same | exact Hinv].
Qed.

Lemma handleKeyUp_invariant event s :
  invariant s -> invariant (exec (handleKeyUp event) s).
Proof.
  intros Hinv. unfold handleKeyUp.
  destruct (String.eqb (key event) "Escape"); [apply hide_invariant, Hinv |].
  destruct (shiftKey event && isArrowKey (key event)); [| exact Hinv].
  eapply invariant_same; [apply setTimeout_same | exact Hinv].
Qed.

Lemma handleConvertToLink_invariant s :
  onlyHeldPopupInBody s -> invariant (exec handleConvertToLink s).
Proof.
  intros Hbody. unfold handleConvertToLink. rewrite exec_bind.
  apply hide_invariant.
  assert (Hsame : popupManager (exec SelectionHandler.convertToLink s) = popupManager s
                  /\ body (page (exec SelectionHandler.convertToLink s)) = body (page s)).
  { unfold SelectionHandler.convertToLink.
    rewrite exec_bind, exec_gets, eval_gets.
    destruct (editor (selectionHandler s)) as [ed |]; [| now split].
    assert (Hst : exec SelectionHandler.getSelectedText s = s).
    { unfold SelectionHandler.getSelectedText. run.
      destruct (editor (selectionHandler s)) as [ed' |]; [| reflexivity].
      destruct (editors (host s) !! ed'); reflexivity. }
    rewrite exec_bind. unfold JSString in *. rewrite Hst.
    match goal with
    | |- context [match ?text with [] => _ | _ :: _ => _ end] =>
        destruct text; [now split |]
    end.
    rewrite exec_modify. destruct (editors (host s) !! ed); now split. }
  destruct Hsame as [Hp Hb]. intros el Hel. rewrite Hp. apply Hbody.
  now rewrite <- Hb.
Qed.

Lemma runFrameCallbacks_same callbacks s :
  samePopupAndSelection s (exec (runFrameCallbacks callbacks) s).
Proof.
  revert s. induction callbacks as [| callback rest IH]; intros s.
  - apply samePopupAndSelection_refl.
  - cbn [runFrameCallbacks]. rewrite exec_bind.
    eapply samePopupAndSelection_trans; [| apply IH].
    destruct callback; cbn [runFrameCallback].
    + unfold PopupManager.getElement. rewrite exec_bind, exec_gets, eval_gets.
      destruct (popup (popupManager s)) as [el |].
      * apply updateElement_same.
      * apply samePopupAndSelection_refl.
    + rewrite exec_bind, exec_modify.
      eapply samePopupAndSelection_trans;
        [apply positionPopup_same | apply withProcessing_same].
Qed.

Lemma animationFrame_invariant s :
  invariant s -> invariant (exec animationFrame s).
Proof.
  intros Hinv. unfold animationFrame.
  rewrite exec_bind, exec_gets, eval_gets, exec_bind, exec_modify.
  eapply invariant_same; [apply runFrameCallbacks_same |].
  eapply invariant_same; [| exact Hinv]. repeat split.
Qed.

Lemma timeoutExpires_invariant s :
  invariant s -> invariant (exec timeoutExpires s).
Proof.
  intros Hinv. unfold timeoutExpires.
  rewrite exec_bind, exec_gets, eval_gets.
  destruct (timeouts (page s)) as [| [] rest]; [exact Hinv |].
  rewrite exec_bind, exec_modify. cbn [runTimeoutCallback].
  apply checkSelection_invariant.
  eapply invariant_same; [| exact Hinv]. repeat split.
Qed.

Lemma click_invariant el s :
  invariant s -> invariant (exec (click el) s).
Proof.
  intros Hinv. unfold click.
  rewrite exec_bind, exec_gets, eval_gets, exec_bind, exec_gets, eval_gets.
  destruct (existsb (Nat.eqb el) (body (page s))); [| exact Hinv].
  destruct (elements (page s) !! el) as [e |]; [| exact Hinv].
  generalize (concat (map clickListeners (children e))). intros handlers.
  revert s Hinv. induction handlers as [| [] rest IH]; intros s Hinv.
  - exact Hinv.
  - cbn [foldr runClickHandler]. rewrite exec_bind.
    apply IH, handleConvertToLink_invariant, Hinv.
Qed.

Lemma handle_invariant ev s :
  invariant s -> invariant (exec (handle ev) s).
Proof.
  intros Hinv. destruct ev; cbn [handle].
  - eapply invariant_same; [apply setTimeout_same | exact Hinv].
  - now apply handleKeyUp_invariant.
  - apply handleSelectionChange_invariant, Hinv.
  - now apply handleScrollOrResize_invariant.
  - now apply handleScrollOrResize_invariant.
  - apply hide_invariant, Hinv.
  - now apply timeoutExpires_invariant.
  - now apply animationFrame_invariant.
  - now apply click_invariant.
Qed.

(** A host change that keeps every selected text keeps a valid
    selection valid. *)
Lemma keepsSelections_valid s h' :
  keepsSelections (host s) h' ->
  eval SelectionHandler.hasValidSelection s = true ->
  eval SelectionHandler.hasValidSelection (withHost h' s) = true.
Proof.
  intros Hkeep.
  unfold SelectionHandler.hasValidSelection, SelectionHandler.getSelectedText.
  run. cbn [selectionHandler withHost host].
  destruct (editor (selectionHandler s)) as [ed |]; [| trivial].
  cbv beta iota zeta. cbn [host withHost].
  destruct (editors (host s) !! ed) as [e |] eqn:He; [| discriminate].
  destruct (Hkeep ed e He) as (e' & He' & Hsame).
  rewrite He'. cbv beta iota zeta. cbn [fst]. now rewrite Hsame.
Qed.

(** Outside a show-sequence [checkSelection] re-establishes the invariant
    whatever happened to the selection. *)
Lemma checkSelection_idle_invariant s :
  isProcessing s = false ->
  onlyHeldPopupInBody s -> invariant (exec checkSelection s).
Proof.
  intros Hidle Hbody. unfold checkSelection.
  rewrite exec_bind, exec_gets, eval_gets, Hidle.
  rewrite exec_bind, exec_gets, eval_gets.
  destruct (activeEditor (host s)) as [ed |];
    [| now apply hide_invariant].
  unfold SelectionHandler.setEditor.
  rewrite exec_bind, exec_modify, exec_bind, hasValidSelection_state.
  assert (Hbody' : onlyHeldPopupInBody (withEditor (Some ed) s)) by exact Hbody.
  destruct (eval SelectionHandler.hasValidSelection (withEditor (Some ed) s))
    eqn:Hvalid.
  - now apply showPopup_invariant.
  - now apply hide_invariant.
Qed.

(** *** Detecting an invalid selection *)

(** The two handlers that read the selection text hide the popup when
    they find it invalid. *)
Lemma handleSelectionChange_hides s :
  eval SelectionHandler.hasValidSelection s = false ->
  eval PopupManager.exists_ (exec handleSelectionChange s) = false.
Proof.
  intros Hinvalid. unfold handleSelectionChange, PopupManager.exists_ at 2.
  rewrite exec_bind, exec_gets, eval_gets.
  destruct (popup (popupManager s)) as [el |] eqn:Hheld.
  - rewrite exec_bind, hasValidSelection_state, Hinvalid. cbn [negb].
    apply hide_then_not_exists.
  - rewrite exec_ret. unfold PopupManager.exists_. run. now rewrite Hheld.
Qed.

Lemma checkSelection_hides s ed :
  isProcessing s = false ->
  activeEditor (host s) = Some ed ->
  eval SelectionHandler.hasValidSelection (withEditor (Some ed) s) = false ->
  eval PopupManager.exists_ (exec checkSelection s) = false.
Proof.
  intros Hidle Hactive Hinvalid. unfold checkSelection.
  rewrite exec_bind, exec_gets, eval_gets, Hidle.
  rewrite exec_bind, exec_gets, eval_gets, Hactive.
  unfold SelectionHandler.setEditor.
  rewrite exec_bind, exec_modify, exec_bind, hasValidSelection_state, Hinvalid.
  apply hide_then_not_exists.
Qed.
End ControllerInvariant.

(** * Further properties of the code *)

(** ** [PositionCalculator]: the collision test *)

(** X1: for a popup of non-negative size, [hasCollision] answers true
    exactly when some point lies both in the selection's box and in the
    popup's box (edges included). *)
Theorem hasCollision_iff_common_point
    (selectionRect : DOMRect.t) (p : PopupPosition.t) (popupRect : DOMRect.t) :
  0 <= DOMRect.width popupRect ->
  0 <= DOMRect.height popupRect ->
  PositionCalculator.hasCollision selectionRect p popupRect = true
  <-> exists px py,
        inSelectionBox selectionRect px py /\ inPopupBox p popupRect px py.
Proof.
  intros Hw Hh. rewrite hasCollision_overlaps.
  unfold overlaps, inSelectionBox, inPopupBox. split.
  - intros [[Hv1 Hv2] [Hh1 Hh2]].
    exists (Qmax (DOMRect.left selectionRect) (PopupPosition.left p)),
           (Qmax (DOMRect.top selectionRect) (PopupPosition.top p)).
    assert (Hlr : DOMRect.left selectionRect <= DOMRect.right selectionRect).
    { unfold DOMRect.left, DOMRect.right. name_minmax; lra. }
    assert (Htb : DOMRect.top selectionRect <= DOMRect.bottom selectionRect).
    { unfold DOMRect.top, DOMRect.bottom. name_minmax; lra. }
    name_edges selectionRect. name_minmax; repeat split; lra.
  - intros (px & py & [[? ?] [? ?]] & [[? ?] [? ?]]). repeat split; lra.
Qed.

Lemma hasCollision_iff_common_point_witness :
  (0 <= 120 /\ 0 <= 40)
  /\ exists px py,
       inSelectionBox whole_screen_selection px py
       /\ inPopupBox (PopupPosition.mk 750 340 PopupPlacement.bottom)
            (popup_120x40 0 0) px py.
Proof.
  split; [split; discriminate |].
  apply (hasCollision_iff_common_point whole_screen_selection
           (PopupPosition.mk 750 340 PopupPlacement.bottom) (popup_120x40 0 0));
    [discriminate | discriminate | reflexivity].
Defined.

(** ** [PositionCalculator]: the side that is chosen *)

(** X2: whenever the above placement respects the top margin, [calculate]
    returns it as it is -- the collision guard does not fire -- and the
    popup's bottom edge is [TOTAL_OFFSET = 16] above the selection. *)
Theorem calculate_above_when_it_fits
    (win : Window.t) (selectionRect popupRect : DOMRect.t) :
  let topPlacement :=
    DOMRect.top selectionRect - DOMRect.height popupRect
      - PopupConfig.TOTAL_OFFSET in
  PopupConfig.SCREEN_MARGIN <= topPlacement ->
  PositionCalculator.calculate win selectionRect popupRect
  = PopupPosition.mk topPlacement
      (PositionCalculator.calculateHorizontalPosition win selectionRect popupRect)
      PopupPlacement.top
  /\ topPlacement + DOMRect.height popupRect == DOMRect.top selectionRect - 16.
Proof.
  intros tp Hfits. split; [| subst tp; unfold_config; lra].
  pose proof (calculate_keeps_vertical_choice win selectionRect popupRect) as Hkeep.
  pose proof (guard_fires_only_when_nothing_fits win selectionRect popupRect) as Hguard.
  cbv zeta in Hkeep, Hguard.
  rewrite (vertical_above win selectionRect popupRect Hfits) in Hkeep, Hguard.
  cbn [fst snd] in Hkeep, Hguard. apply Hkeep.
  destruct (PositionCalculator.hasCollision _ _ _); [| reflexivity].
  destruct (Hguard eq_refl) as [Hno _]. fold tp in Hno. lra.
Qed.

Lemma calculate_above_when_it_fits_witness :
  10 <= 500 - 40 - 16
  /\ PositionCalculator.calculate viewport_1000x800
       (rect 500 100 80 20) (popup_120x40 0 0)
     = PopupPosition.mk (500 - 40 - (6 + 10))
         (PositionCalculator.calculateHorizontalPosition viewport_1000x800
            (rect 500 100 80 20) (popup_120x40 0 0))
         PopupPlacement.top.
Proof.
  split; [discriminate |].
  apply (calculate_above_when_it_fits viewport_1000x800
           (rect 500 100 80 20) (popup_120x40 0 0)).
  discriminate.
Defined.

(** X3: when the above placement would cross the top margin and the
    below placement respects the bottom margin, [calculate] returns the
    below placement as it is, [TOTAL_OFFSET = 16] under the selection. *)
Theorem calculate_below_when_above_does_not_fit
    (win : Window.t) (selectionRect popupRect : DOMRect.t) :
  let topPlacement :=
    DOMRect.top selectionRect - DOMRect.height popupRect
      - PopupConfig.TOTAL_OFFSET in
  let bottomPlacement := DOMRect.bottom selectionRect + PopupConfig.TOTAL_OFFSET in
  topPlacement < PopupConfig.SCREEN_MARGIN ->
  bottomPlacement + DOMRect.height popupRect
    <= Window.innerHeight win - PopupConfig.SCREEN_MARGIN ->
  PositionCalculator.calculate win selectionRect popupRect
  = PopupPosition.mk bottomPlacement
      (PositionCalculator.calculateHorizontalPosition win selectionRect popupRect)
      PopupPlacement.bottom
  /\ bottomPlacement == DOMRect.bottom selectionRect + 16.
Proof.
  intros tp bp Hno Hfits. split; [| subst bp; unfold_config; lra].
  pose proof (calculate_keeps_vertical_choice win selectionRect popupRect) as Hkeep.
  pose proof (guard_fires_only_when_nothing_fits win selectionRect popupRect) as Hguard.
  cbv zeta in Hkeep, Hguard.
  rewrite (vertical_below win selectionRect popupRect Hno Hfits) in Hkeep, Hguard.
  cbn [fst snd] in Hkeep, Hguard. apply Hkeep.
  destruct (PositionCalculator.hasCollision _ _ _); [| reflexivity].
  destruct (Hguard eq_refl) as [_ Hnob]. fold bp in Hnob. lra.
Qed.

Lemma calculate_below_when_above_does_not_fit_witness :
  (15 - 40 - 16 < 10 /\ 35 + 16 + 40 <= 800 - 10)
  /\ PopupPosition.placement
       (PositionCalculator.calculate viewport_1000x800
          (rect 15 100 80 20) (popup_120x40 0 0))
     = PopupPlacement.bottom.
Proof.
  split; [split; [reflexivity | discriminate] |].
  destruct (calculate_below_when_above_does_not_fit viewport_1000x800
              (rect 15 100 80 20) (popup_120x40 0 0)) as [Heq _];
    [reflexivity | discriminate |].
  rewrite Heq. reflexivity.
Defined.

(** X4: a placement reported as [top] never crosses the top margin; a
    placement reported as [bottom] never crosses the bottom margin,
    provided the popup is not taller than the viewport minus both
    margins. *)
Theorem calculate_respects_margin_of_its_side
    (win : Window.t) (selectionRect popupRect : DOMRect.t) :
  let p := PositionCalculator.calculate win selectionRect popupRect in
  (PopupPosition.placement p = PopupPlacement.top ->
   PopupConfig.SCREEN_MARGIN <= PopupPosition.top p)
  /\ (PopupPosition.placement p = PopupPlacement.bottom ->
      DOMRect.height popupRect
        <= Window.innerHeight win - 2 * PopupConfig.SCREEN_MARGIN ->
      PopupPosition.top p + DOMRect.height popupRect
        <= Window.innerHeight win - PopupConfig.SCREEN_MARGIN).
Proof.
  intros p. subst p. unfold PositionCalculator.calculate.
  destruct (PositionCalculator.calculateVerticalPosition _ _ _)
    as [top placement] eqn:Hv.
  destruct (PositionCalculator.hasCollision _ _ _).
  - unfold PositionCalculator.forceSafePosition. cbv zeta.
    name_edges selectionRect.
    destruct win as [vw vh], popupRect as [px py pw ph]; simpl in *.
    unfold_config.
    split_comparisons; simpl; split; intros; try discriminate;
      name_minmax; lra.
  - unfold PositionCalculator.calculateVerticalPosition in Hv. cbv zeta in Hv.
    name_edges selectionRect.
    destruct win as [vw vh], popupRect as [px py pw ph]; simpl in *.
    unfold_config.
    split_comparisons; injection Hv as <- <-; split; intros; try discriminate;
      name_minmax; lra.
Qed.

(** The whole-screen selection: the popup is reported below and ends at
    790 = 800 - 10. *)
Lemma calculate_respects_margin_of_its_side_witness :
  let p := PositionCalculator.calculate viewport_1000x800
             whole_screen_selection (popup_120x40 0 0) in
  (PopupPosition.placement p = PopupPlacement.bottom /\ 40 <= 800 - 2 * 10)
  /\ PopupPosition.top p + 40 <= 800 - 10.
Proof.
  intros p.
  assert (Hside : PopupPosition.placement p = PopupPlacement.bottom) by reflexivity.
  assert (Hsmall : 40 <= 800 - 2 * 10) by discriminate.
  split; [split; assumption |].
  exact (proj2 (calculate_respects_margin_of_its_side viewport_1000x800
                  whole_screen_selection (popup_120x40 0 0)) Hside Hsmall).
Defined.

(** ** [PositionCalculator]: the horizontal position *)

(** X5: when the centred position keeps both screen margins, [calculate]
    uses it unchanged: the popup's centre is the selection's centre. *)
Theorem calculate_centres_popup
    (win : Window.t) (selectionRect popupRect : DOMRect.t) :
  PopupConfig.SCREEN_MARGIN <= centerAligned selectionRect popupRect ->
  centerAligned selectionRect popupRect
    <= Window.innerWidth win - DOMRect.width popupRect - PopupConfig.SCREEN_MARGIN ->
  let p := PositionCalculator.calculate win selectionRect popupRect in
  PopupPosition.left p == centerAligned selectionRect popupRect
  /\ PopupPosition.left p + DOMRect.width popupRect / 2
     == DOMRect.left selectionRect + DOMRect.width selectionRect / 2.
Proof.
  intros Hlow Hhigh p. subst p. rewrite calculate_left.
  unfold PositionCalculator.calculateHorizontalPosition,
    PositionCalculator.clampToHorizontalBounds. cbv zeta.
  fold (centerAligned selectionRect popupRect).
  assert (Hleft : Qmax PopupConfig.SCREEN_MARGIN
                    (Qmin (centerAligned selectionRect popupRect)
                       (Window.innerWidth win - DOMRect.width popupRect
                          - PopupConfig.SCREEN_MARGIN))
                  == centerAligned selectionRect popupRect).
  { revert Hlow Hhigh. generalize (centerAligned selectionRect popupRect).
    intros c Hlow Hhigh. name_minmax; lra. }
  split; [exact Hleft |]. rewrite Hleft. unfold centerAligned.
  unfold Qdiv. change (/ 2) with (1 # 2). lra.
Qed.

Lemma calculate_centres_popup_witness :
  let p := PositionCalculator.calculate viewport_1000x800
             (rect 500 100 80 20) (popup_120x40 0 0) in
  (10 <= 100 + 80 / 2 - 120 / 2 /\ 100 + 80 / 2 - 120 / 2 <= 1000 - 120 - 10)
  /\ PopupPosition.left p + 120 / 2 == 100 + 80 / 2.
Proof.
  intros p. split; [split; discriminate |].
  destruct (calculate_centres_popup viewport_1000x800
              (rect 500 100 80 20) (popup_120x40 0 0)) as [_ Hcentre];
    [discriminate | discriminate |].
  exact Hcentre.
Defined.

(** X6: clamping is monotone -- a selection further right never puts the
    popup further left -- and clamping an already clamped position
    changes nothing. *)
Theorem clampToHorizontalBounds_monotone
    (win : Window.t) (left1 left2 popupWidth : Q) :
  left1 <= left2 ->
  PositionCalculator.clampToHorizontalBounds win left1 popupWidth
    <= PositionCalculator.clampToHorizontalBounds win left2 popupWidth
  /\ PositionCalculator.clampToHorizontalBounds win
       (PositionCalculator.clampToHorizontalBounds win left1 popupWidth) popupWidth
     == PositionCalculator.clampToHorizontalBounds win left1 popupWidth.
Proof.
  intros Hle. unfold PositionCalculator.clampToHorizontalBounds. cbv zeta.
  generalize (Window.innerWidth win - popupWidth - PopupConfig.SCREEN_MARGIN).
  intros maxLeft. unfold_config. split; name_minmax; lra.
Qed.

Lemma clampToHorizontalBounds_monotone_witness :
  -50 <= 2000
  /\ PositionCalculator.clampToHorizontalBounds viewport_1000x800 (-50) 120
     <= PositionCalculator.clampToHorizontalBounds viewport_1000x800 2000 120.
Proof.
  split; [discriminate |].
  apply (clampToHorizontalBounds_monotone viewport_1000x800 (-50) 2000 120).
  discriminate.
Defined.

(** X7: [calculate] reads the popup's width and height only: two popup
    rectangles of the same size get the same placement wherever they
    currently sit, so positioning the popup again for the same selection
    and window does not move it. *)
Theorem calculate_ignores_popup_position
    (win : Window.t) (selectionRect popupRect1 popupRect2 : DOMRect.t) :
  DOMRect.width popupRect1 = DOMRect.width popupRect2 ->
  DOMRect.height popupRect1 = DOMRect.height popupRect2 ->
  PositionCalculator.calculate win selectionRect popupRect1
  = PositionCalculator.calculate win selectionRect popupRect2.
Proof.
  intros Hwidth Hheight.
  destruct popupRect1 as [x1 y1 w1 h1], popupRect2 as [x2 y2 w2 h2].
  cbn [DOMRect.width DOMRect.height] in Hwidth, Hheight. subst w2 h2.
  reflexivity.
Qed.

(** The popup before it is placed, at the origin, and after, at (80, 444). *)
Lemma calculate_ignores_popup_position_witness :
  PositionCalculator.calculate viewport_1000x800 (rect 500 100 80 20)
    (popup_120x40 0 0)
  = PositionCalculator.calculate viewport_1000x800 (rect 500 100 80 20)
      (popup_120x40 80 444).
Proof.
  apply (calculate_ignores_popup_position viewport_1000x800
           (rect 500 100 80 20) (popup_120x40 0 0) (popup_120x40 80 444));
    reflexivity.
Defined.

(** ** [PositionCalculator]: the forced position *)

(** X8: [forceSafePosition] reports side [top] exactly when the above
    placement respects the top margin, and whenever the popup fits above
    or below the selection it returns what [calculate] returns. *)
Theorem forceSafePosition_agrees_when_it_fits
    (win : Window.t) (selectionRect popupRect : DOMRect.t) :
  let topPlacement :=
    DOMRect.top selectionRect - DOMRect.height popupRect
      - PopupConfig.TOTAL_OFFSET in
  let bottomPlacement := DOMRect.bottom selectionRect + PopupConfig.TOTAL_OFFSET in
  let forced := PositionCalculator.forceSafePosition win selectionRect popupRect in
  (PopupPosition.placement forced = PopupPlacement.top
   <-> PopupConfig.SCREEN_MARGIN <= topPlacement)
  /\ (PopupConfig.SCREEN_MARGIN <= topPlacement
      \/ bottomPlacement + DOMRect.height popupRect
         <= Window.innerHeight win - PopupConfig.SCREEN_MARGIN ->
      forced = PositionCalculator.calculate win selectionRect popupRect).
Proof.
  intros tp bp forced. split.
  - subst forced. unfold PositionCalculator.forceSafePosition. cbv zeta.
    fold tp bp. unfold Qltb, Qgtb.
    destruct (Qle_boolP PopupConfig.SCREEN_MARGIN tp); cbn [negb].
    + tauto.
    + destruct (Qle_bool _ _); cbn [negb PopupPosition.placement];
        split; intros; (discriminate || contradiction).
  - intros Hfits.
    destruct (Qlt_le_dec tp PopupConfig.SCREEN_MARGIN) as [Hno | Hyes].
    + destruct Hfits as [Habove | Hbelow]; [lra |].
      pose proof (calculate_keeps_vertical_choice win selectionRect popupRect) as Hkeep.
      pose proof (guard_fires_only_when_nothing_fits win selectionRect popupRect) as Hguard.
      cbv zeta in Hkeep, Hguard.
      rewrite (vertical_below win selectionRect popupRect Hno Hbelow) in Hkeep, Hguard.
      cbn [fst snd] in Hkeep, Hguard. rewrite Hkeep.
      * subst forced. unfold PositionCalculator.forceSafePosition. cbv zeta.
        fold tp bp. apply Qltb_true in Hno. rewrite Hno.
        unfold Qgtb. apply Qle_bool_iff in Hbelow. now rewrite Hbelow.
      * destruct (PositionCalculator.hasCollision _ _ _); [| reflexivity].
        destruct (Hguard eq_refl) as [_ Hnob]. fold bp in Hnob. lra.
    + pose proof (calculate_keeps_vertical_choice win selectionRect popupRect) as Hkeep.
      pose proof (guard_fires_only_when_nothing_fits win selectionRect popupRect) as Hguard.
      cbv zeta in Hkeep, Hguard.
      rewrite (vertical_above win selectionRect popupRect Hyes) in Hkeep, Hguard.
      cbn [fst snd] in Hkeep, Hguard. rewrite Hkeep.
      * subst forced. unfold PositionCalculator.forceSafePosition. cbv zeta.
        fold tp. unfold Qltb. apply Qle_bool_iff in Hyes. now rewrite Hyes.
      * destruct (PositionCalculator.hasCollision _ _ _); [| reflexivity].
        destruct (Hguard eq_refl) as [Hnoa _]. fold tp in Hnoa. lra.
Qed.

Lemma forceSafePosition_agrees_when_it_fits_witness :
  (10 <= 500 - 40 - 16)
  /\ PositionCalculator.forceSafePosition viewport_1000x800
       (rect 500 100 80 20) (popup_120x40 0 0)
     = PositionCalculator.calculate viewport_1000x800
         (rect 500 100 80 20) (popup_120x40 0 0).
Proof.
  split; [discriminate |].
  apply (forceSafePosition_agrees_when_it_fits viewport_1000x800
           (rect 500 100 80 20) (popup_120x40 0 0)).
  left. discriminate.
Defined.

(** ** [SelectionHandler]: valid selections and the rewrite *)

(** X9: [hasValidSelection] is true exactly when the text selected in the
    bound editor contains a code unit that is not white space; with no
    editor bound the selected text is empty. *)
Theorem hasValidSelection_iff_visible_text
    {E : Type} `{Editor E} (s : State E) :
  (eval SelectionHandler.hasValidSelection s = true
   <-> exists c, In c (eval SelectionHandler.getSelectedText s)
                 /\ isWhiteSpace c = false)
  /\ (editor (selectionHandler s) = None ->
      eval SelectionHandler.getSelectedText s = []).
Proof.
  split.
  - pose proof (hasValidSelection_false_iff s) as Hfalse.
    destruct (eval SelectionHandler.hasValidSelection s).
    + split; [intros _ | reflexivity].
      destruct (forallb isWhiteSpace (eval SelectionHandler.getSelectedText s))
        eqn:Hall.
      * destruct Hfalse as [_ Hback]. discriminate (Hback eq_refl).
      * apply not_true_iff_false in Hall.
        rewrite forallb_forall in Hall.
        induction (eval SelectionHandler.getSelectedText s) as [| c text IH].
        -- exfalso. apply Hall. intros x [].
        -- destruct (isWhiteSpace c) eqn:Hc.
           ++ destruct IH as (x & Hx & Hnot).
              ** intros Hrest. apply Hall. intros x [<- | Hx]; auto.
              ** exists x. split; [now right | exact Hnot].
           ++ exists c. split; [now left | exact Hc].
    + split; [discriminate |]. intros (c & Hin & Hc).
      destruct Hfalse as [Hall _]. specialize (Hall eq_refl).
      rewrite forallb_forall in Hall. rewrite (Hall c Hin) in Hc. discriminate.
  - intros Hnone. unfold SelectionHandler.getSelectedText. run.
    now rewrite Hnone.
Qed.

Lemma hasValidSelection_iff_visible_text_witness :
  editor (selectionHandler (initial (host example_state))) = None
  /\ eval SelectionHandler.getSelectedText (initial (host example_state)) = [].
Proof.
  split; [reflexivity |].
  apply (hasValidSelection_iff_visible_text (initial (host example_state))).
  reflexivity.
Defined.

Lemma getSelectedText_state {E : Type} `{Editor E} (s : State E) :
  exec SelectionHandler.getSelectedText s = s.
Proof.
  unfold SelectionHandler.getSelectedText. run.
  destruct (editor (selectionHandler s)) as [ed |]; [| reflexivity].
  destruct (editors (host s) !! ed); reflexivity.
Qed.

(** X10: with nothing selected -- no editor bound, or an empty selection
    in the bound editor -- [convertToLink] changes nothing: it does not
    insert an empty link. *)
Theorem convertToLink_without_selection
    {E : Type} `{Editor E} (s : State E) :
  eval SelectionHandler.getSelectedText s = [] ->
  exec SelectionHandler.convertToLink s = s.
Proof.
  intros Hempty. unfold SelectionHandler.convertToLink.
  rewrite exec_bind, exec_gets, eval_gets.
  destruct (editor (selectionHandler s)) as [ed |]; [| reflexivity].
  pose proof (getSelectedText_state s) as Hst.
  rewrite exec_bind. unfold JSString in *. now rewrite Hst, Hempty.
Qed.

Lemma convertToLink_without_selection_witness :
  let s := withHost (withEditors [Buffer.mk (js "a") [] (js "b")]
                       (host example_state)) example_state in
  eval SelectionHandler.getSelectedText s = []
  /\ exec SelectionHandler.convertToLink s = s.
Proof.
  intros s. split; [reflexivity |].
  apply (convertToLink_without_selection s). reflexivity.
Defined.

(** X11: text that contains no bracket is wrapped as it is. *)
Theorem linkedText_wraps_plain_text (s : JSString) :
  forallb (fun c => negb (isBracket c)) s = true ->
  SelectionHandler.linkedText s = js "[[" ++ s ++ js "]]".
Proof.
  intros Hplain. rewrite linkedText_withoutBrackets. f_equal. f_equal.
  unfold withoutBrackets. induction s as [| c s IH]; [reflexivity |].
  cbn [forallb] in Hplain. apply andb_true_iff in Hplain.
  destruct Hplain as [Hc Hrest]. cbn [List.filter]. rewrite Hc.
  now rewrite (IH Hrest).
Qed.

Lemma linkedText_wraps_plain_text_witness :
  forallb (fun c => negb (isBracket c)) (js "text") = true
  /\ SelectionHandler.linkedText (js "text") = js "[[text]]".
Proof.
  split; [reflexivity |].
  apply (linkedText_wraps_plain_text (js "text")). reflexivity.
Defined.

(** X12: the link depends on the selected text only through what is left
    of it without brackets: two selections give the same link exactly
    when they agree once their brackets are removed. *)
Theorem linkedText_eq_iff (s t : JSString) :
  SelectionHandler.linkedText s = SelectionHandler.linkedText t
  <-> withoutBrackets s = withoutBrackets t.
Proof.
  rewrite !linkedText_withoutBrackets. split.
  - intros Heq. apply app_inv_head in Heq. now apply app_inv_tail in Heq.
  - now intros ->.
Qed.

(** ** [PopupManager]: the element and the document *)

Lemma hasClass_add (token c : string) (classes : list string) :
  hasClass c (classList_add token classes)
  = String.eqb c token || hasClass c classes.
Proof.
  unfold classList_add.
  destruct (hasClass token classes) eqn:Hhas.
  - destruct (String.eqb_spec c token) as [-> | _]; [now rewrite Hhas | reflexivity].
  - unfold hasClass. rewrite existsb_app. cbn [existsb].
    rewrite orb_false_r. apply orb_comm.
Qed.

Lemma existsb_eqb_filter (f : string -> bool) (c : string) (l : list string) :
  existsb (String.eqb c) (List.filter f l) = existsb (String.eqb c) l && f c.
Proof.
  induction l as [| x l IH]; [reflexivity |].
  cbn [List.filter existsb].
  destruct (String.eqb_spec c x) as [<- | Hne].
  - destruct (f c) eqn:Hf; cbn [existsb orb andb].
    + now rewrite String.eqb_refl.
    + rewrite IH. apply andb_false_r.
  - apply String.eqb_neq in Hne. cbn [orb].
    destruct (f x); cbn [existsb]; [rewrite Hne |]; exact IH.
Qed.

Lemma hasClass_remove (tokens : list string) (c : string) (classes : list string) :
  hasClass c (classList_remove tokens classes)
  = hasClass c classes && negb (hasClass c tokens).
Proof. unfold classList_remove, hasClass at 1 2. apply existsb_eqb_filter. Qed.

Lemma In_removeChild (el x : nat) (nodes : list nat) :
  In x (removeChild el nodes) <-> In x nodes /\ x <> el.
Proof.
  unfold removeChild. rewrite List.filter_In, negb_true_iff, Nat.eqb_neq.
  reflexivity.
Qed.

(** X13: [create] installs a fresh, detached element with the link
    button, but does not detach the element held before: an element that
    was shown stays in the document, and a later [hide] removes the new
    element only. *)
Theorem create_does_not_detach_previous_popup
    {E : Type} (s : State E) (onConvert : ClickHandler) (old : nat) :
  popup (popupManager s) = Some old ->
  In old (body (page s)) ->
  (old < length (elements (page s)))%nat ->
  let created := exec (PopupManager.create onConvert) s in
  let el := length (elements (page s)) in
  eval (PopupManager.create onConvert) s = el
  /\ popup (popupManager created) = Some el
  /\ elements (page created) !! el
     = Some {| classList := [PopupConfig.POPUP_CLASS]; styleTop := None;
               styleLeft := None;
               children := [PopupManager.createLinkButton onConvert] |}
  /\ body (page created) = body (page s)
  /\ In old (body (page (exec PopupManager.hide created)))
  /\ eval PopupManager.exists_ (exec PopupManager.hide created) = false.
Proof.
  intros Hheld Hattached Hold created el.
  assert (Hcreated : created
                     = withPopup (Some el)
                         (withPage
                            {| elements := elements (page s)
                                 ++ [{| classList := [PopupConfig.POPUP_CLASS];
                                        styleTop := None; styleLeft := None;
                                        children := [PopupManager.createLinkButton onConvert] |}];
                               body := body (page s);
                               animationFrames := animationFrames (page s);
                               timeouts := timeouts (page s) |} s))
    by reflexivity.
  split; [reflexivity |]. split; [reflexivity |].
  split.
  { rewrite Hcreated. cbn [page withPopup withPage elements].
    subst el. rewrite lookup_app_r by reflexivity.
    now rewrite Nat.sub_diag. }
  split; [reflexivity |]. split; [| apply hide_then_not_exists].
  unfold PopupManager.hide, setBody. run. rewrite Hcreated.
  cbn. apply In_removeChild. split; [exact Hattached |].
  subst el. intros ->. exact (Nat.lt_irrefl _ Hold).
Qed.

(** A popup is on screen and [create] is called again. *)
Lemma create_does_not_detach_previous_popup_witness :
  (popup (popupManager state_after_selecting) = Some 0%nat
   /\ In 0%nat (body (page state_after_selecting))
   /\ (0 < length (elements (page state_after_selecting)))%nat)
  /\ In 0%nat
       (body (page (exec PopupManager.hide
                      (exec (PopupManager.create HandleConvertToLink)
                         state_after_selecting)))).
Proof.
  assert (Hheld : popup (popupManager state_after_selecting) = Some 0%nat)
    by reflexivity.
  assert (Hin : In 0%nat (body (page state_after_selecting)))
    by (left; reflexivity).
  assert (Hlt : (0 < length (elements (page state_after_selecting)))%nat)
    by (vm_compute; apply Nat.lt_0_succ).
  split; [repeat split; assumption |].
  exact (proj1 (proj2 (proj2 (proj2 (proj2
           (create_does_not_detach_previous_popup state_after_selecting
              HandleConvertToLink 0 Hheld Hin Hlt)))))).
Defined.

Lemma removeChild_app (el : nat) (l1 l2 : list nat) :
  removeChild el (l1 ++ l2) = removeChild el l1 ++ removeChild el l2.
Proof. unfold removeChild. apply List.filter_app. Qed.

Lemma removeChild_idempotent (el : nat) (nodes : list nat) :
  removeChild el (removeChild el nodes) = removeChild el nodes.
Proof.
  unfold removeChild. induction nodes as [| n nodes IH]; [reflexivity |].
  cbn [List.filter]. destruct (negb (n =? el)%nat) eqn:Hn; [| exact IH].
  cbn [List.filter]. now rewrite Hn, IH.
Qed.

Lemma removeChild_removes (el : nat) (nodes : list nat) :
  List.filter (Nat.eqb el) (removeChild el nodes) = [].
Proof.
  unfold removeChild. induction nodes as [| n nodes IH]; [reflexivity |].
  cbn [List.filter]. destruct (Nat.eqb_spec n el) as [-> | Hne]; cbn [negb].
  - exact IH.
  - cbn [List.filter]. destruct (Nat.eqb_spec el n) as [-> | _];
      [contradiction | exact IH].
Qed.

Lemma appendChild_idempotent (el : nat) (nodes : list nat) :
  appendChild el (appendChild el nodes) = appendChild el nodes.
Proof.
  unfold appendChild. rewrite removeChild_app, removeChild_idempotent.
  unfold removeChild at 2. cbn [List.filter]. rewrite Nat.eqb_refl.
  cbn [negb]. now rewrite app_nil_r.
Qed.

Lemma show_result {E : Type} (s : State E) (el : nat) :
  popup (popupManager s) = Some el ->
  body (page (exec PopupManager.show s)) = appendChild el (body (page s))
  /\ popup (popupManager (exec PopupManager.show s)) = Some el
  /\ animationFrames (page (exec PopupManager.show s))
     = animationFrames (page s) ++ [AddShowClass].
Proof.
  intros Hheld. unfold PopupManager.show, setBody, requestAnimationFrame.
  run. rewrite Hheld. cbn. rewrite ?Hheld. repeat split; reflexivity.
Qed.

(** X14: [show] puts the held element at the end of the document's
    children exactly once, however often it is called: a second [show]
    leaves the children as they are (it only requests another frame). *)
Theorem show_attaches_once {E : Type} (s : State E) (el : nat) :
  popup (popupManager s) = Some el ->
  let shown := exec PopupManager.show s in
  body (page shown) = removeChild el (body (page s)) ++ [el]
  /\ occurrencesOf el (body (page shown)) = 1%nat
  /\ body (page (exec PopupManager.show shown)) = body (page shown)
  /\ popup (popupManager shown) = Some el
  /\ animationFrames (page shown) = animationFrames (page s) ++ [AddShowClass].
Proof.
  intros Hheld shown.
  destruct (show_result s el Hheld) as (Hbody & Hpopup & Hframes).
  fold shown in Hbody, Hpopup, Hframes.
  split; [exact Hbody |]. split.
  { rewrite Hbody. unfold occurrencesOf, appendChild.
    rewrite List.filter_app, length_app.
    cbn [List.filter]. rewrite Nat.eqb_refl. cbn [length].
    now rewrite removeChild_removes. }
  split; [| split; assumption].
  destruct (show_result shown el Hpopup) as (Hbody2 & _ & _).
  rewrite Hbody2, Hbody. apply appendChild_idempotent.
Qed.

Lemma show_attaches_once_witness :
  popup (popupManager state_after_selecting) = Some 0%nat
  /\ body (page (exec PopupManager.show state_after_selecting)) = [0%nat].
Proof.
  split; [reflexivity |].
  destruct (show_attaches_once state_after_selecting 0 eq_refl) as [Hbody _].
  rewrite Hbody. reflexivity.
Defined.

Lemma position_result {E : Type} (s : State E) (pos : PopupPosition.t)
    (el : nat) (e : HTMLElement) :
  popup (popupManager s) = Some el ->
  elements (page s) !! el = Some e ->
  elements (page (exec (PopupManager.position pos) s)) !! el
  = Some {| classList :=
              classList_add
                (PopupManager.placementClass (PopupPosition.placement pos))
                (classList_remove
                   [PopupConfig.PLACEMENT_TOP_CLASS;
                    PopupConfig.PLACEMENT_BOTTOM_CLASS] (classList e));
            styleTop := Some (PopupPosition.top pos);
            styleLeft := Some (PopupPosition.left pos);
            children := children e |}.
Proof.
  intros Hheld He. unfold PopupManager.position.
  rewrite exec_bind, exec_gets, eval_gets, Hheld.
  unfold updateElement. rewrite exec_modify, He. cbn [page withPage elements].
  apply list_lookup_insert_eq. now apply lookup_lt_Some in He.
Qed.

(** X15: [position] writes the placement's coordinates into the held
    element and leaves it with exactly one side class, that of the
    placement, whatever side class it carried before; its other classes
    and its button are kept. *)
Theorem position_sets_coordinates_and_side
    {E : Type} (s : State E) (pos : PopupPosition.t) (el : nat) (e : HTMLElement) :
  popup (popupManager s) = Some el ->
  elements (page s) !! el = Some e ->
  exists e',
    elements (page (exec (PopupManager.position pos) s)) !! el = Some e'
    /\ styleTop e' = Some (PopupPosition.top pos)
    /\ styleLeft e' = Some (PopupPosition.left pos)
    /\ hasClass PopupConfig.PLACEMENT_TOP_CLASS (classList e')
       = match PopupPosition.placement pos with
         | PopupPlacement.top => true
         | PopupPlacement.bottom => false
         end
    /\ hasClass PopupConfig.PLACEMENT_BOTTOM_CLASS (classList e')
       = match PopupPosition.placement pos with
         | PopupPlacement.top => false
         | PopupPlacement.bottom => true
         end
    /\ (forall c, c <> PopupConfig.PLACEMENT_TOP_CLASS ->
                  c <> PopupConfig.PLACEMENT_BOTTOM_CLASS ->
                  hasClass c (classList e') = hasClass c (classList e))
    /\ children e' = children e.
Proof.
  intros Hheld He. eexists. split; [apply (position_result s pos el e Hheld He) |].
  cbn [styleTop styleLeft classList children].
  split; [reflexivity |]. split; [reflexivity |].
  split; [| split; [| split; [| reflexivity]]].
  - rewrite hasClass_add, hasClass_remove.
    destruct (PopupPosition.placement pos); cbn; [reflexivity |].
    apply andb_false_r.
  - rewrite hasClass_add, hasClass_remove.
    destruct (PopupPosition.placement pos); cbn; [| reflexivity].
    apply andb_false_r.
  - intros c Htop Hbottom. rewrite hasClass_add, hasClass_remove.
    apply String.eqb_neq in Htop, Hbottom.
    assert (Hside : String.eqb c
                      (PopupManager.placementClass (PopupPosition.placement pos))
                    = false).
    { destruct (PopupPosition.placement pos); assumption. }
    rewrite Hside. unfold hasClass at 2. cbn [existsb].
    rewrite Htop, Hbottom. cbn. apply andb_true_r.
Qed.

(** The popup on screen is above its selection; it is moved below. *)
Lemma position_sets_coordinates_and_side_witness :
  let s := exec (PopupManager.position
                   (PopupPosition.mk 536 80 PopupPlacement.bottom))
             state_after_selecting in
  exists e',
    elements (page s) !! 0%nat = Some e'
    /\ hasClass PopupConfig.PLACEMENT_TOP_CLASS (classList e') = false
    /\ hasClass PopupConfig.PLACEMENT_BOTTOM_CLASS (classList e') = true.
Proof.
  intros s.
  destruct (elements (page state_after_selecting) !! 0%nat) as [e |] eqn:He;
    [| discriminate He].
  destruct (position_sets_coordinates_and_side state_after_selecting
              (PopupPosition.mk 536 80 PopupPlacement.bottom) 0 e eq_refl He)
    as (e' & Hlookup & _ & _ & Htop & Hbottom & _).
  exists e'. repeat split; assumption.
Defined.

(** X16: [hide] detaches the held element and nothing else, and forgets
    it; hiding twice is hiding once. *)
Theorem hide_detaches_held_element {E : Type} (s : State E) :
  exec PopupManager.hide (exec PopupManager.hide s) = exec PopupManager.hide s
  /\ popup (popupManager (exec PopupManager.hide s)) = None
  /\ elements (page (exec PopupManager.hide s)) = elements (page s)
  /\ (forall el, popup (popupManager s) = Some el ->
        forall x, In x (body (page (exec PopupManager.hide s)))
                  <-> In x (body (page s)) /\ x <> el).
Proof.
  unfold PopupManager.hide, setBody. run.
  destruct (popup (popupManager s)) as [held |] eqn:Hheld; cbn.
  - split; [reflexivity |]. split; [reflexivity |]. split; [reflexivity |].
    intros el [= <-] x. apply In_removeChild.
  - rewrite Hheld. split; [reflexivity |]. split; [reflexivity |].
    split; [reflexivity |]. intros el [=].
Qed.

Lemma hide_detaches_held_element_witness :
  popup (popupManager state_after_selecting) = Some 0%nat
  /\ ~ In 0%nat (body (page (exec PopupManager.hide state_after_selecting))).
Proof.
  split; [reflexivity |].
  destruct (hide_detaches_held_element state_after_selecting) as (_ & _ & _ & Hbody).
  intros Hin. apply (Hbody 0%nat eq_refl) in Hin. destruct Hin as [_ Hne].
  now apply Hne.
Defined.

(** ** [TextSelectionLinkerPlugin]: the shape of the document and the
    re-entrancy guard *)

Section ControllerShapeInvariant.
Context {E : Type} `{Editor E}.
Import TextSelectionLinkerPlugin.

Implicit Types s : State E.

Local Abbreviation shapeAndGuard :=
  (fun s : State E => popupIsOnlyChild s /\ guardHasRelease s).

Lemma sameShapeAndGuard_refl s : sameShapeAndGuard s s.
Proof. repeat split. Qed.

Lemma sameShapeAndGuard_trans s1 s2 s3 :
  sameShapeAndGuard s1 s2 -> sameShapeAndGuard s2 s3 -> sameShapeAndGuard s1 s3.
Proof.
  intros (? & ? & ? & ? & ?) (? & ? & ? & ? & ?). repeat split; congruence.
Qed.

Lemma shapeAndGuard_same s s' :
  sameShapeAndGuard s s' -> shapeAndGuard s -> shapeAndGuard s'.
Proof.
  intros (Hp & Hb & Hl & Hf & Hg) [Hshape Hguard]. split.
  - unfold popupIsOnlyChild in *. now rewrite Hp, Hb, Hl.
  - unfold guardHasRelease in *. now rewrite Hf, Hg.
Qed.

Lemma updateElement_shape el f s :
  sameShapeAndGuard s (exec (updateElement el f) s).
Proof.
  unfold updateElement. rewrite exec_modify.
  destruct (elements (page s) !! el); repeat split.
  cbn [page withPage elements]. apply length_insert.
Qed.

Lemma position_shape pos s :
  sameShapeAndGuard s (exec (PopupManager.position pos) s).
Proof.
  unfold PopupManager.position. rewrite exec_bind, exec_gets, eval_gets.
  destruct (popup (popupManager s)) as [el |].
  - apply updateElement_shape.
  - apply sameShapeAndGuard_refl.
Qed.

Lemma positionPopup_shape s : sameShapeAndGuard s (exec positionPopup s).
Proof.
  unfold positionPopup, SelectionHandler.getSelectionRect, PopupManager.getElement.
  rewrite !exec_bind, !exec_gets, !eval_gets.
  destruct (selectionRect (host s)) as [rect |];
    [| apply sameShapeAndGuard_refl].
  destruct (popup (popupManager s)) as [el |];
    [| apply sameShapeAndGuard_refl].
  rewrite !exec_bind, !exec_gets, !eval_gets. apply position_shape.
Qed.

Lemma popupIsOnlyChild_onlyHeld s :
  popupIsOnlyChild s -> onlyHeldPopupInBody s.
Proof.
  unfold popupIsOnlyChild, onlyHeldPopupInBody. intros Hshape el Hel.
  destruct (popup (popupManager s)) as [held |].
  - destruct Hshape as [Hbody _]. rewrite Hbody in Hel.
    destruct Hel as [<- | []]. reflexivity.
  - rewrite Hshape in Hel. destruct Hel.
Qed.

Lemma hide_guard s :
  isProcessing (exec PopupManager.hide s) = isProcessing s
  /\ animationFrames (page (exec PopupManager.hide s)) = animationFrames (page s).
Proof.
  unfold PopupManager.hide, setBody. run.
  destruct (popup (popupManager s)); split; reflexivity.
Qed.

Lemma hide_shapeAndGuard s :
  shapeAndGuard s -> shapeAndGuard (exec PopupManager.hide s).
Proof.
  intros [Hshape Hguard].
  destruct (hide_noPopup s (popupIsOnlyChild_onlyHeld s Hshape)) as [Hnone Hempty].
  destruct (hide_guard s) as [Hp Hf]. split.
  - unfold popupIsOnlyChild. now rewrite Hnone.
  - unfold guardHasRelease. now rewrite Hp, Hf.
Qed.

Lemma show_keeps_elements s :
  isProcessing (exec PopupManager.show s) = isProcessing s
  /\ elements (page (exec PopupManager.show s)) = elements (page s).
Proof.
  unfold PopupManager.show, setBody, requestAnimationFrame. run.
  destruct (popup (popupManager s)); split; reflexivity.
Qed.

(** What [showPopup] leaves behind besides the popup. *)
Lemma showPopup_guard s :
  isProcessing (exec showPopup s) = true
  /\ animationFrames (page (exec showPopup s))
     = animationFrames (page s) ++ [AddShowClass; PositionPopupAndRelease]
  /\ length (elements (page (exec showPopup s)))
     = S (length (elements (page s))).
Proof.
  unfold showPopup. rewrite exec_bind, exec_modify, exec_bind.
  destruct (hide_guard (withProcessing true s)) as [Hbusy Hframes].
  pose proof (hide_elements (withProcessing true s)) as Helems.
  set (s2 := exec PopupManager.hide (withProcessing true s)) in *.
  rewrite exec_bind.
  set (s3 := exec (PopupManager.create HandleConvertToLink) s2).
  assert (H3 : isProcessing s3 = isProcessing s2
               /\ animationFrames (page s3) = animationFrames (page s2)
               /\ elements (page s3)
                  = elements (page s2)
                    ++ [{| classList := [PopupConfig.POPUP_CLASS];
                           styleTop := None; styleLeft := None;
                           children := [PopupManager.createLinkButton
                                          HandleConvertToLink] |}]
               /\ popup (popupManager s3) = Some (length (elements (page s2))))
    by (repeat split).
  destruct H3 as (Hbusy3 & Hframes3 & Helems3 & Hheld3).
  rewrite exec_bind.
  destruct (show_result s3 _ Hheld3) as (_ & _ & Hframes4).
  destruct (show_keeps_elements s3) as [Hbusy4 Helems4].
  set (s4 := exec PopupManager.show s3) in *.
  unfold requestAnimationFrame. rewrite exec_modify.
  cbn [isProcessing page withPage animationFrames elements].
  rewrite Hbusy4, Hbusy3, Hbusy, Hframes4, Hframes3, Hframes.
  rewrite Helems4, Helems3, Helems, length_app, <- app_assoc, Nat.add_1_r.
  repeat split.
Qed.

Lemma showPopup_shapeAndGuard s :
  popupIsOnlyChild s -> shapeAndGuard (exec showPopup s).
Proof.
  intros Hshape.
  destruct (showPopup_result s (popupIsOnlyChild_onlyHeld s Hshape))
    as (Hheld & Hbody & _ & _).
  destruct (showPopup_guard s) as (Hbusy & Hframes & Hlen). split.
  - unfold popupIsOnlyChild. rewrite Hheld, Hbody, Hlen. split; [reflexivity |].
    apply Nat.lt_succ_diag_r.
  - intros _. rewrite Hframes. apply in_or_app. right. right. now left.
Qed.

Lemma withEditor_shape ed s : sameShapeAndGuard s (withEditor ed s).
Proof. repeat split. Qed.

Lemma checkSelection_shapeAndGuard s :
  shapeAndGuard s -> shapeAndGuard (exec checkSelection s).
Proof.
  intros Hinv. unfold checkSelection.
  rewrite exec_bind, exec_gets, eval_gets.
  destruct (isProcessing s) eqn:Hbusy; [exact Hinv |].
  rewrite exec_bind, exec_gets, eval_gets.
  destruct (activeEditor (host s)) as [ed |];
    [| now apply hide_shapeAndGuard].
  unfold SelectionHandler.setEditor.
  rewrite exec_bind, exec_modify, exec_bind, hasValidSelection_state.
  assert (Hinv' : shapeAndGuard (withEditor (Some ed) s))
    by (eapply shapeAndGuard_same; [apply withEditor_shape | exact Hinv]).
  destruct (eval SelectionHandler.hasValidSelection (withEditor (Some ed) s)).
  - apply showPopup_shapeAndGuard, Hinv'.
  - now apply hide_shapeAndGuard.
Qed.

Lemma handleSelectionChange_shapeAndGuard s :
  shapeAndGuard s -> shapeAndGuard (exec handleSelectionChange s).
Proof.
  intros Hinv. unfold handleSelectionChange, PopupManager.exists_.
  rewrite exec_bind, exec_gets, eval_gets.
  destruct (popup (popupManager s)) as [el |]; [| exact Hinv].
  rewrite exec_bind, hasValidSelection_state.
  destruct (eval SelectionHandler.hasValidSelection s); cbn [negb];
    [exact Hinv | now apply hide_shapeAndGuard].
Qed.

Lemma handleScrollOrResize_shapeAndGuard s :
  shapeAndGuard s -> shapeAndGuard (exec handleScrollOrResize s).
Proof.
  intros Hinv. unfold handleScrollOrResize, PopupManager.exists_.
  rewrite exec_bind, exec_gets, eval_gets.
  destruct (popup (popupManager s)) as [el |] eqn:Hheld; [| exact Hinv].
  unfold updatePopupPosition, SelectionHandler.getSelectionRect,
    PopupManager.getElement.
  rewrite !exec_bind, !exec_gets, !eval_gets, Hheld.
  destruct (selectionRect (host s)) as [rect |];
    [| now apply hide_shapeAndGuard].
  rewrite !exec_bind, !exec_gets, !eval_gets.
  eapply shapeAndGuard_same; [apply position_shape | exact Hinv].
Qed.

Lemma convertToLink_shape s :
  sameShapeAndGuard s (exec SelectionHandler.convertToLink s).
Proof.
  unfold SelectionHandler.convertToLink.
  rewrite exec_bind, exec_gets, eval_gets.
  destruct (editor (selectionHandler s)) as [ed |];
    [| apply sameShapeAndGuard_refl].
  pose proof (getSelectedText_state s) as Hst.
  rewrite exec_bind. unfold JSString in *. rewrite Hst.
  match goal with
  | |- context [match ?text with [] => _ | _ :: _ => _ end] =>
      destruct text; [apply sameShapeAndGuard_refl |]
  end.
  rewrite exec_modify. destruct (editors (host s) !! ed); repeat split.
Qed.

Lemma handleConvertToLink_shapeAndGuard s :
  shapeAndGuard s -> shapeAndGuard (exec handleConvertToLink s).
Proof.
  intros Hinv. unfold handleConvertToLink. rewrite exec_bind.
  apply hide_shapeAndGuard.
  eapply shapeAndGuard_same; [apply convertToLink_shape | exact Hinv].
Qed.

(** A frame's callbacks change attributes of elements and may clear the
    guard; they request no further frame. *)
Lemma runFrameCallbacks_effect callbacks s :
  let s' := exec (runFrameCallbacks callbacks) s in
  popupManager s' = popupManager s
  /\ body (page s') = body (page s)
  /\ length (elements (page s')) = length (elements (page s))
  /\ animationFrames (page s') = animationFrames (page s)
  /\ isProcessing s'
     = if existsb isRelease callbacks then false else isProcessing s.
Proof.
  revert s. induction callbacks as [| callback rest IH]; intros s.
  - repeat split.
  - cbn [runFrameCallbacks existsb]. cbv zeta. rewrite exec_bind.
    specialize (IH (exec (runFrameCallback callback) s)). cbv zeta in IH.
    destruct IH as (Hp & Hb & Hl & Hf & Hg).
    rewrite Hp, Hb, Hl, Hf, Hg. clear Hp Hb Hl Hf Hg.
    destruct callback; cbn [runFrameCallback isRelease orb].
    + assert (Hsame : sameShapeAndGuard s
                        (exec (held ← PopupManager.getElement;
                               match held with
                               | Some el =>
                                   updateElement el (fun e =>
                                     {| classList :=
                                          classList_add PopupConfig.SHOW_CLASS
                                            (classList e);
                                        styleTop := styleTop e;
                                        styleLeft := styleLeft e;
                                        children := children e |})
                               | None => mret tt
                               end) s)).
      { unfold PopupManager.getElement. rewrite exec_bind, exec_gets, eval_gets.
        destruct (popup (popupManager s)) as [el |].
        - apply updateElement_shape.
        - apply sameShapeAndGuard_refl. }
      destruct Hsame as (Hp & Hb & Hl & Hf & Hg).
      now rewrite Hp, Hb, Hl, Hf, Hg.
    + rewrite exec_bind, exec_modify.
      destruct (positionPopup_shape s) as (Hp & Hb & Hl & Hf & Hg).
      cbn [popupManager page isProcessing withProcessing].
      rewrite Hp, Hb, Hl, Hf. repeat split.
      now destruct (existsb isRelease rest).
Qed.

Lemma animationFrame_effect s :
  guardHasRelease s ->
  let s' := exec animationFrame s in
  popupManager s' = popupManager s
  /\ body (page s') = body (page s)
  /\ length (elements (page s')) = length (elements (page s))
  /\ animationFrames (page s') = []
  /\ isProcessing s' = false.
Proof.
  intros Hguard s'. subst s'. unfold animationFrame.
  rewrite exec_bind, exec_gets, eval_gets, exec_bind, exec_modify.
  pose proof (runFrameCallbacks_effect (animationFrames (page s))
                (withPage {| elements := elements (page s); body := body (page s);
                             animationFrames := [];
                             timeouts := timeouts (page s) |} s)) as Heffect.
  cbv zeta in Heffect. destruct Heffect as (Hp & Hb & Hl & Hf & Hg).
  split; [exact Hp |]. split; [exact Hb |]. split; [exact Hl |].
  split; [exact Hf |]. rewrite Hg. cbn [isProcessing withPage].
  destruct (existsb isRelease (animationFrames (page s))) eqn:Hrel;
    [reflexivity |].
  destruct (isProcessing s) eqn:Hbusy; [| reflexivity].
  specialize (Hguard Hbusy).
  assert (Hex : existsb isRelease (animationFrames (page s)) = true).
  { apply existsb_exists. exists PositionPopupAndRelease. now split. }
  congruence.
Qed.

Lemma animationFrame_shapeAndGuard s :
  shapeAndGuard s -> shapeAndGuard (exec animationFrame s).
Proof.
  intros [Hshape Hguard].
  destruct (animationFrame_effect s Hguard) as (Hp & Hb & Hl & _ & Hidle).
  split.
  - unfold popupIsOnlyChild in *. now rewrite Hp, Hb, Hl.
  - intros Hbusy. congruence.
Qed.

Lemma timeoutExpires_shapeAndGuard s :
  shapeAndGuard s -> shapeAndGuard (exec timeoutExpires s).
Proof.
  intros Hinv. unfold timeoutExpires.
  rewrite exec_bind, exec_gets, eval_gets.
  destruct (timeouts (page s)) as [| [] rest]; [exact Hinv |].
  rewrite exec_bind, exec_modify. cbn [runTimeoutCallback].
  apply checkSelection_shapeAndGuard.
  eapply shapeAndGuard_same; [| exact Hinv]. repeat split.
Qed.

Lemma click_shapeAndGuard el s :
  shapeAndGuard s -> shapeAndGuard (exec (click el) s).
Proof.
  intros Hinv. unfold click.
  rewrite exec_bind, exec_gets, eval_gets, exec_bind, exec_gets, eval_gets.
  destruct (existsb (Nat.eqb el) (body (page s))); [| exact Hinv].
  destruct (elements (page s) !! el) as [e |]; [| exact Hinv].
  generalize (concat (map clickListeners (children e))). intros handlers.
  revert s Hinv. induction handlers as [| [] rest IH]; intros s Hinv.
  - exact Hinv.
  - cbn [foldr runClickHandler]. rewrite exec_bind.
    apply IH, handleConvertToLink_shapeAndGuard, Hinv.
Qed.

Lemma handle_shapeAndGuard ev s :
  shapeAndGuard s -> shapeAndGuard (exec (handle ev) s).
Proof.
  intros Hinv. destruct ev; cbn [handle].
  - eapply shapeAndGuard_same; [| exact Hinv]. repeat split.
  - unfold handleKeyUp.
    destruct (String.eqb (key event) "Escape");
      [now apply hide_shapeAndGuard |].
    destruct (shiftKey event && isArrowKey (key event)); [| exact Hinv].
    eapply shapeAndGuard_same; [| exact Hinv]. repeat split.
  - now apply handleSelectionChange_shapeAndGuard.
  - now apply handleScrollOrResize_shapeAndGuard.
  - now apply handleScrollOrResize_shapeAndGuard.
  - now apply hide_shapeAndGuard.
  - now apply timeoutExpires_shapeAndGuard.
  - now apply animationFrame_shapeAndGuard.
  - now apply click_shapeAndGuard.
Qed.

Lemma reachable_shapeAndGuard s : reachable s -> shapeAndGuard s.
Proof.
  induction 1 as [h | s s' _ IH Hstep].
  - split; [reflexivity | discriminate].
  - destruct Hstep as [ev s | s h'].
    + now apply handle_shapeAndGuard.
    + exact IH.
Qed.
End ControllerShapeInvariant.

(** ** The popup while the selection changes *)

(** C5 (as stated, refuted): the popup is on screen, the user clears the
    selection, and before [selectionchange] is handled the window is
    scrolled, a frame passes and an arrow key is released.  None of these
    handlers reads the selection text: the popup is still held and
    visible, with an empty selection. *)
Lemma popup_survives_cleared_selection :
  reachable state_after_clearing
  /\ eval PopupManager.exists_ state_after_clearing = true
  /\ isVisible 0 state_after_clearing = true
  /\ eval SelectionHandler.getSelectedText state_after_clearing = []
  /\ eval SelectionHandler.hasValidSelection state_after_clearing = false.
Proof.
  split.
  - unfold state_after_clearing.
    repeat (eapply reachable_step; [| apply step_handle]).
    eapply reachable_step; [| apply step_host].
    unfold state_after_selecting.
    repeat (eapply reachable_step; [| apply step_handle]).
    apply reachable_initial.
  - repeat split; reflexivity.
Qed.

(** C5 (amended): a popup exists with an invalid selection only between a
    change of the selected text and the next handler that reads it.  In
    every reachable state,
    - no handler and no host change that keeps the selected texts turns a
      popup with a valid selection into one with an invalid selection;
    - after [handleSelectionChange], and after [checkSelection] outside a
      show-sequence, a popup exists only with a valid selection, whatever
      the host has become: on detecting an invalid selection they hide it;
    - an element that is visible is the held popup. *)
Theorem popup_invalid_only_until_detected
    {E : Type} `{Editor E} (s : State E) :
  reachable s ->
  (forall ev, popupHasSelection s -> popupHasSelection (exec (handle ev) s))
  /\ (forall h', keepsSelections (host s) h' ->
        popupHasSelection s -> popupHasSelection (withHost h' s))
  /\ (forall h',
        popupHasSelection
          (exec TextSelectionLinkerPlugin.handleSelectionChange (withHost h' s))
        /\ (eval SelectionHandler.hasValidSelection (withHost h' s) = false ->
            eval PopupManager.exists_
              (exec TextSelectionLinkerPlugin.handleSelectionChange
                 (withHost h' s)) = false))
  /\ (forall h', isProcessing s = false ->
        popupHasSelection
          (exec TextSelectionLinkerPlugin.checkSelection (withHost h' s)))
  /\ (forall el, isVisible el s = true ->
        eval PopupManager.getElement s = Some el).
Proof.
  intros Hreach.
  destruct (reachable_shapeAndGuard s Hreach) as [Hshape _].
  pose proof (popupIsOnlyChild_onlyHeld s Hshape) as Hbody.
  split; [| split; [| split; [| split]]].
  - intros ev Hvalid. now apply (handle_invariant ev s).
  - intros h' Hkeep Hvalid el Hel.
    apply keepsSelections_valid; [exact Hkeep |]. now apply (Hvalid el).
  - intros h'. split.
    + now apply (handleSelectionChange_invariant (withHost h' s)).
    + apply handleSelectionChange_hides.
  - intros h' Hidle.
    now apply (checkSelection_idle_invariant (withHost h' s)).
  - intros el Hvisible. unfold isVisible in Hvisible.
    apply andb_true_iff in Hvisible. destruct Hvisible as [Hattached _].
    apply existsb_exists in Hattached. destruct Hattached as (n & Hn & Heq).
    apply Nat.eqb_eq in Heq. subst n. exact (Hbody el Hn).
Qed.

(** The popup is on screen, the user clears the selection and
    [selectionchange] is handled. *)
Lemma popup_invalid_only_until_detected_witness :
  reachable state_after_selecting
  /\ eval SelectionHandler.hasValidSelection
       (withHost cleared_host state_after_selecting) = false
  /\ eval PopupManager.exists_
       (exec TextSelectionLinkerPlugin.handleSelectionChange
          (withHost cleared_host state_after_selecting)) = false.
Proof.
  assert (Hreach : reachable state_after_selecting).
  { unfold state_after_selecting.
    repeat (eapply reachable_step; [| apply step_handle]).
    apply reachable_initial. }
  assert (Hinvalid : eval SelectionHandler.hasValidSelection
                       (withHost cleared_host state_after_selecting) = false)
    by reflexivity.
  split; [exact Hreach |]. split; [exact Hinvalid |].
  destruct (popup_invalid_only_until_detected state_after_selecting Hreach)
    as (_ & _ & Hdetect & _).
  exact (proj2 (Hdetect cleared_host) Hinvalid).
Defined.

(** X17: in every state the controller can reach, the document holds at
    most one popup element of the plugin: with a held popup the
    document's children are exactly that element, which exists in the
    store; without one there is none. *)
Theorem at_most_one_popup_in_document
    {E : Type} `{Editor E} (s : State E) :
  reachable s ->
  match eval PopupManager.getElement s with
  | Some el =>
      body (page s) = [el] /\ is_Some (elements (page s) !! el)
  | None => body (page s) = []
  end.
Proof.
  intros Hreach. destruct (reachable_shapeAndGuard s Hreach) as [Hshape _].
  unfold popupIsOnlyChild in Hshape. unfold PopupManager.getElement.
  rewrite eval_gets. destruct (popup (popupManager s)) as [el |]; [| exact Hshape].
  destruct Hshape as [Hbody Hlt]. split; [exact Hbody |].
  now apply lookup_lt_is_Some.
Qed.

Lemma at_most_one_popup_in_document_witness :
  reachable state_after_selecting
  /\ body (page state_after_selecting) = [0%nat].
Proof.
  assert (Hreach : reachable state_after_selecting).
  { unfold state_after_selecting.
    repeat (eapply reachable_step; [| apply step_handle]).
    apply reachable_initial. }
  split; [exact Hreach |].
  exact (proj1 (at_most_one_popup_in_document state_after_selecting Hreach)).
Defined.

(** X18: the re-entrancy guard cannot stay set: in every reachable state
    in which [isProcessing] is true the callback that clears it is
    waiting for the next animation frame, and after that frame the guard
    is clear and no callback is waiting. *)
Theorem guard_is_released_by_next_frame
    {E : Type} `{Editor E} (s : State E) :
  reachable s ->
  (isProcessing s = true ->
   In PositionPopupAndRelease (animationFrames (page s)))
  /\ isProcessing (exec TextSelectionLinkerPlugin.animationFrame s) = false
  /\ animationFrames (page (exec TextSelectionLinkerPlugin.animationFrame s)) = [].
Proof.
  intros Hreach. destruct (reachable_shapeAndGuard s Hreach) as [_ Hguard].
  split; [exact Hguard |].
  destruct (animationFrame_effect s Hguard) as (_ & _ & _ & Hframes & Hidle).
  split; assumption.
Qed.

(** A selection has been made and the delayed check has run; the frame
    has not come yet. *)
Lemma guard_is_released_by_next_frame_witness :
  let s := exec (handle TimeoutExpires)
             (exec (handle MouseUp) (initial (host example_state))) in
  reachable s
  /\ isProcessing s = true
  /\ isProcessing (exec TextSelectionLinkerPlugin.animationFrame s) = false.
Proof.
  intros s.
  assert (Hreach : reachable s).
  { unfold s. repeat (eapply reachable_step; [| apply step_handle]).
    apply reachable_initial. }
  split; [exact Hreach |]. split; [reflexivity |].
  exact (proj1 (proj2 (guard_is_released_by_next_frame s Hreach))).
Defined.

(** ** [TextSelectionLinkerPlugin]: the handlers *)

Section Handlers.
Context {E : Type} `{Editor E}.
Import TextSelectionLinkerPlugin.

Implicit Types s : State E.

Lemma hide_popup s : popup (popupManager (exec PopupManager.hide s)) = None.
Proof.
  unfold PopupManager.hide, setBody. run.
  destruct (popup (popupManager s)) eqn:Hheld; [reflexivity | exact Hheld].
Qed.

(** [showPopup] always ends with a held popup and touches neither the
    bound editor nor the host. *)
Lemma showPopup_holds_popup s :
  popup (popupManager (exec showPopup s)) = Some (length (elements (page s)))
  /\ selectionHandler (exec showPopup s) = selectionHandler s
  /\ host (exec showPopup s) = host s.
Proof.
  unfold showPopup. rewrite exec_bind, exec_modify, exec_bind.
  destruct (hide_selection (withProcessing true s)) as [Hsel Hhost].
  pose proof (hide_elements (withProcessing true s)) as Helems.
  set (s2 := exec PopupManager.hide (withProcessing true s)) in *.
  rewrite exec_bind.
  set (s3 := exec (PopupManager.create HandleConvertToLink) s2).
  assert (H3 : popup (popupManager s3) = Some (length (elements (page s2)))
               /\ selectionHandler s3 = selectionHandler s2
               /\ host s3 = host s2) by (repeat split).
  destruct H3 as (Hheld3 & Hsel3 & Hhost3).
  rewrite exec_bind.
  destruct (show_result s3 _ Hheld3) as (_ & Hheld4 & _).
  assert (H4 : selectionHandler (exec PopupManager.show s3) = selectionHandler s3
               /\ host (exec PopupManager.show s3) = host s3).
  { unfold PopupManager.show, setBody, requestAnimationFrame. run.
    destruct (popup (popupManager s3)); split; reflexivity. }
  destruct H4 as [Hsel4 Hhost4].
  set (s4 := exec PopupManager.show s3) in *.
  unfold requestAnimationFrame. rewrite exec_modify.
  cbn [popupManager selectionHandler host withPage].
  rewrite Hheld4, Hsel4, Hsel3, Hsel, Hhost4, Hhost3, Hhost, Helems.
  repeat split.
Qed.

Lemma checkSelection_when_idle s :
  isProcessing s = false ->
  eval PopupManager.exists_ (exec checkSelection s)
  = match activeEditor (host s) with
    | Some ed => eval SelectionHandler.hasValidSelection (withEditor (Some ed) s)
    | None => false
    end
  /\ (forall ed, activeEditor (host s) = Some ed ->
        editor (selectionHandler (exec checkSelection s)) = Some ed).
Proof.
  intros Hidle. unfold checkSelection.
  rewrite exec_bind, exec_gets, eval_gets, Hidle.
  rewrite exec_bind, exec_gets, eval_gets.
  destruct (activeEditor (host s)) as [ed |].
  - unfold SelectionHandler.setEditor.
    rewrite exec_bind, exec_modify, exec_bind, hasValidSelection_state.
    destruct (eval SelectionHandler.hasValidSelection (withEditor (Some ed) s)).
    + destruct (showPopup_holds_popup (withEditor (Some ed) s)) as (Hheld & Hsel & _).
      split.
      * unfold PopupManager.exists_. rewrite eval_gets. now rewrite Hheld.
      * intros ed' [= <-]. now rewrite Hsel.
    + split; [apply hide_then_not_exists |].
      intros ed' [= <-].
      now destruct (hide_selection (withEditor (Some ed) s)) as [-> _].
  - split; [apply hide_then_not_exists | discriminate].
Qed.
End Handlers.

(** X19: when no show-sequence is in flight, the delayed check binds the
    active editor and leaves a popup exactly when that editor's selection
    is valid; without an active editor it leaves none. *)
Theorem checkSelection_shows_iff_valid
    {E : Type} `{Editor E} (s : State E) (ed : nat) :
  isProcessing s = false ->
  activeEditor (host s) = Some ed ->
  let s' := exec TextSelectionLinkerPlugin.checkSelection s in
  eval PopupManager.exists_ s'
  = eval SelectionHandler.hasValidSelection (withEditor (Some ed) s)
  /\ editor (selectionHandler s') = Some ed
  /\ eval SelectionHandler.hasValidSelection s'
     = eval SelectionHandler.hasValidSelection (withEditor (Some ed) s).
Proof.
  intros Hidle Hactive s'.
  destruct (checkSelection_when_idle s Hidle) as [Hexists Hbound].
  rewrite Hactive in Hexists. specialize (Hbound ed Hactive).
  split; [exact Hexists |]. split; [exact Hbound |].
  apply hasValidSelection_ext.
  - subst s'. revert Hbound.
    destruct (selectionHandler (exec TextSelectionLinkerPlugin.checkSelection s))
      as [bound].
    cbn [editor selectionHandler withEditor]. now intros ->.
  - subst s'. unfold TextSelectionLinkerPlugin.checkSelection.
    rewrite exec_bind, exec_gets, eval_gets, Hidle.
    rewrite exec_bind, exec_gets, eval_gets, Hactive.
    unfold SelectionHandler.setEditor.
    rewrite exec_bind, exec_modify, exec_bind, hasValidSelection_state.
    destruct (eval SelectionHandler.hasValidSelection (withEditor (Some ed) s)).
    + now destruct (showPopup_holds_popup (withEditor (Some ed) s)) as (_ & _ & ->).
    + now destruct (hide_selection (withEditor (Some ed) s)) as [_ ->].
Qed.

Lemma checkSelection_shows_iff_valid_witness :
  let s := initial (host example_state) in
  (isProcessing s = false /\ activeEditor (host s) = Some 0%nat)
  /\ eval PopupManager.exists_ (exec TextSelectionLinkerPlugin.checkSelection s)
     = true.
Proof.
  intros s. split; [split; reflexivity |].
  destruct (checkSelection_shows_iff_valid s 0 eq_refl eq_refl) as [Hexists _].
  rewrite Hexists. reflexivity.
Defined.

Section Listeners.
Context {E : Type} `{Editor E}.
Import TextSelectionLinkerPlugin.

Implicit Types s : State E.

Lemma handleScrollOrResize_popup s :
  popup (popupManager (exec handleScrollOrResize s)) = popup (popupManager s)
  \/ popup (popupManager (exec handleScrollOrResize s)) = None.
Proof.
  unfold handleScrollOrResize, PopupManager.exists_.
  rewrite exec_bind, exec_gets, eval_gets.
  destruct (popup (popupManager s)) as [el |] eqn:Hheld; [| now left].
  unfold updatePopupPosition, SelectionHandler.getSelectionRect,
    PopupManager.getElement.
  rewrite !exec_bind, !exec_gets, !eval_gets, Hheld.
  destruct (selectionRect (host s)) as [rect |]; [| right; apply hide_popup].
  rewrite !exec_bind, !exec_gets, !eval_gets.
  left. destruct (position_same
                    (PositionCalculator.calculate (window (host s)) rect
                       (boundingClientRect (host s) el)) s) as (-> & _).
  exact Hheld.
Qed.

Lemma clickHandlers_popup (handlers : list ClickHandler) s :
  let s' := exec (foldr (fun handler rest => runClickHandler handler;; rest)
                    (mret tt) handlers) s in
  popup (popupManager s') = popup (popupManager s)
  \/ popup (popupManager s') = None.
Proof.
  revert s. induction handlers as [| [] rest IH]; intros s; cbv zeta.
  - now left.
  - cbn [foldr runClickHandler]. rewrite exec_bind.
    specialize (IH (exec handleConvertToLink s)). cbv zeta in IH.
    assert (Hnone : popup (popupManager (exec handleConvertToLink s)) = None).
    { unfold handleConvertToLink. rewrite exec_bind. apply hide_popup. }
    right. destruct IH as [IH | IH]; congruence.
Qed.

(** X20: no listener but the delayed selection check creates or replaces
    a popup: mouse-up, key-up, selection change, scroll, resize, leaf
    change, animation frame and click leave the held element as it is or
    drop it. *)
Theorem only_the_delayed_check_creates_a_popup ev s :
  ev <> TimeoutExpires ->
  popup (popupManager (exec (handle ev) s)) = popup (popupManager s)
  \/ popup (popupManager (exec (handle ev) s)) = None.
Proof.
  intros Hev. destruct ev; cbn [handle]; try contradiction.
  - now left.
  - unfold handleKeyUp.
    destruct (String.eqb (key event) "Escape"); [right; apply hide_popup |].
    destruct (shiftKey event && isArrowKey (key event)); now left.
  - unfold handleSelectionChange, PopupManager.exists_.
    rewrite exec_bind, exec_gets, eval_gets.
    destruct (popup (popupManager s)) as [el |] eqn:Hheld; [| now left].
    rewrite exec_bind, hasValidSelection_state.
    destruct (eval SelectionHandler.hasValidSelection s); cbn [negb].
    + left. now rewrite exec_ret.
    + right. apply hide_popup.
  - destruct (handleScrollOrResize_popup s) as [-> | ->]; auto.
  - destruct (handleScrollOrResize_popup s) as [-> | ->]; auto.
  - right. apply hide_popup.
  - left. unfold animationFrame.
    rewrite exec_bind, exec_gets, eval_gets, exec_bind, exec_modify.
    now destruct (runFrameCallbacks_same (animationFrames (page s))
                    (withPage {| elements := elements (page s);
                                 body := body (page s);
                                 animationFrames := [];
                                 timeouts := timeouts (page s) |} s))
      as (-> & _).
  - unfold click.
    rewrite exec_bind, exec_gets, eval_gets, exec_bind, exec_gets, eval_gets.
    destruct (existsb (Nat.eqb el) (body (page s))); [| now left].
    destruct (elements (page s) !! el) as [e |]; [| now left].
    apply clickHandlers_popup.
Qed.
End Listeners.

Lemma only_the_delayed_check_creates_a_popup_witness :
  Scroll <> TimeoutExpires
  /\ (popup (popupManager (exec (handle Scroll) state_after_selecting))
      = popup (popupManager state_after_selecting)
      \/ popup (popupManager (exec (handle Scroll) state_after_selecting)) = None).
Proof.
  split; [discriminate |].
  apply (only_the_delayed_check_creates_a_popup Scroll state_after_selecting).
  discriminate.
Defined.

(** X21: on scroll or resize with a held popup, the handler writes the
    calculator's placement for the current selection rectangle, window
    and popup size into the popup; without a selection rectangle it hides
    the popup, whereas the deferred [positionPopup] leaves everything as
    it is in that case. *)
Theorem handleScrollOrResize_repositions_or_hides
    {E : Type} `{Editor E} (s : State E) (el : nat) (e : HTMLElement) :
  popup (popupManager s) = Some el ->
  elements (page s) !! el = Some e ->
  (forall rect, selectionRect (host s) = Some rect ->
     let pos := PositionCalculator.calculate (window (host s)) rect
                  (boundingClientRect (host s) el) in
     let s' := exec TextSelectionLinkerPlugin.handleScrollOrResize s in
     popup (popupManager s') = Some el
     /\ exists e',
          elements (page s') !! el = Some e'
          /\ styleTop e' = Some (PopupPosition.top pos)
          /\ styleLeft e' = Some (PopupPosition.left pos)
          /\ hasClass (PopupManager.placementClass (PopupPosition.placement pos))
               (classList e') = true)
  /\ (selectionRect (host s) = None ->
      eval PopupManager.exists_
        (exec TextSelectionLinkerPlugin.handleScrollOrResize s) = false
      /\ exec TextSelectionLinkerPlugin.positionPopup s = s).
Proof.
  intros Hheld He.
  assert (Hrun : exec TextSelectionLinkerPlugin.handleScrollOrResize s
                 = match selectionRect (host s) with
                   | Some rect =>
                       exec (PopupManager.position
                               (PositionCalculator.calculate (window (host s)) rect
                                  (boundingClientRect (host s) el))) s
                   | None => exec PopupManager.hide s
                   end).
  { unfold TextSelectionLinkerPlugin.handleScrollOrResize, PopupManager.exists_.
    rewrite exec_bind, exec_gets, eval_gets, Hheld.
    unfold TextSelectionLinkerPlugin.updatePopupPosition,
      SelectionHandler.getSelectionRect, PopupManager.getElement.
    rewrite !exec_bind, !exec_gets, !eval_gets, Hheld.
    destruct (selectionRect (host s)); [| reflexivity].
    now rewrite !exec_bind, !exec_gets, !eval_gets. }
  split.
  - intros rect Hrect pos s'. subst s'. rewrite Hrun, Hrect. fold pos. split.
    + destruct (position_same pos s) as (-> & _). exact Hheld.
    + eexists. split; [apply (position_result s pos el e Hheld He) |].
      cbn [styleTop styleLeft classList].
      split; [reflexivity |]. split; [reflexivity |].
      rewrite hasClass_add, String.eqb_refl. reflexivity.
  - intros Hrect. rewrite Hrun, Hrect. split; [apply hide_then_not_exists |].
    unfold TextSelectionLinkerPlugin.positionPopup,
      SelectionHandler.getSelectionRect, PopupManager.getElement.
    now rewrite !exec_bind, !exec_gets, !eval_gets, Hrect.
Qed.

(** The popup on screen, after the selection's rectangle is gone. *)
Lemma handleScrollOrResize_repositions_or_hides_witness :
  let s := withHost
             {| editors := editors (host state_after_selecting);
                activeEditor := Some 0%nat;
                selectionRect := None;
                window := viewport_1000x800;
                boundingClientRect := fun _ => popup_120x40 0 0 |}
             state_after_selecting in
  popup (popupManager s) = Some 0%nat
  /\ selectionRect (host s) = None
  /\ eval PopupManager.exists_
       (exec TextSelectionLinkerPlugin.handleScrollOrResize s) = false.
Proof.
  intros s.
  destruct (elements (page s) !! 0%nat) as [e |] eqn:He; [| discriminate He].
  destruct (handleScrollOrResize_repositions_or_hides s 0 e eq_refl He)
    as [_ Hnone].
  split; [reflexivity |]. split; [reflexivity |].
  exact (proj1 (Hnone eq_refl)).
Defined.

Section DeferredCallbacks.
Context {E : Type} `{Editor E}.
Import TextSelectionLinkerPlugin.

Implicit Types s : State E.

Lemma positionPopup_without_popup s :
  popup (popupManager s) = None -> exec positionPopup s = s.
Proof.
  intros Hnone. unfold positionPopup, SelectionHandler.getSelectionRect,
    PopupManager.getElement.
  rewrite !exec_bind, !exec_gets, !eval_gets, Hnone.
  now destruct (selectionRect (host s)).
Qed.

Lemma runFrameCallbacks_without_popup callbacks s :
  popup (popupManager s) = None ->
  exec (runFrameCallbacks callbacks) s
  = if existsb isRelease callbacks then withProcessing false s else s.
Proof.
  revert s. induction callbacks as [| callback rest IH]; intros s Hnone.
  - reflexivity.
  - cbn [runFrameCallbacks existsb]. rewrite exec_bind.
    destruct callback; cbn [runFrameCallback isRelease orb].
    + unfold PopupManager.getElement at 1.
      rewrite exec_bind, exec_gets, eval_gets, Hnone, exec_ret.
      now apply IH.
    + rewrite exec_bind, exec_modify, (positionPopup_without_popup s Hnone).
      rewrite (IH (withProcessing false s) Hnone).
      now destruct (existsb isRelease rest).
Qed.

Lemma positionPopup_with_rect s rect el :
  selectionRect (host s) = Some rect ->
  popup (popupManager s) = Some el ->
  exec positionPopup s
  = exec (PopupManager.position
            (PositionCalculator.calculate (window (host s)) rect
               (boundingClientRect (host s) el))) s.
Proof.
  intros Hrect Hheld. unfold positionPopup, SelectionHandler.getSelectionRect,
    PopupManager.getElement.
  rewrite !exec_bind, !exec_gets, !eval_gets, Hrect, Hheld.
  now rewrite !exec_bind, !exec_gets, !eval_gets.
Qed.

Lemma hide_body s :
  body (page (exec PopupManager.hide s))
  = match popup (popupManager s) with
    | Some el => removeChild el (body (page s))
    | None => body (page s)
    end
  /\ timeouts (page (exec PopupManager.hide s)) = timeouts (page s).
Proof.
  unfold PopupManager.hide, setBody. run.
  destruct (popup (popupManager s)); split; reflexivity.
Qed.
End DeferredCallbacks.

(** X22: an animation frame that comes after the popup was hidden is
    harmless: its callbacks find no popup, so nothing in the document
    changes; the frame only empties the queue and, if the releasing
    callback was waiting, clears the re-entrancy guard. *)
Theorem animationFrame_without_popup
    {E : Type} `{Editor E} (s : State E) :
  popup (popupManager s) = None ->
  exec TextSelectionLinkerPlugin.animationFrame s
  = let drained :=
      withPage {| elements := elements (page s); body := body (page s);
                  animationFrames := []; timeouts := timeouts (page s) |} s in
    if existsb isRelease (animationFrames (page s))
    then withProcessing false drained else drained.
Proof.
  intros Hnone. unfold TextSelectionLinkerPlugin.animationFrame.
  rewrite exec_bind, exec_gets, eval_gets, exec_bind, exec_modify.
  now apply runFrameCallbacks_without_popup.
Qed.

(** The popup is requested, Escape is released before the frame comes. *)
Lemma animationFrame_without_popup_witness :
  let s := exec (handle (KeyUp escape))
             (exec (handle TimeoutExpires)
                (exec (handle MouseUp) (initial (host example_state)))) in
  popup (popupManager s) = None
  /\ isProcessing s = true
  /\ isProcessing (exec TextSelectionLinkerPlugin.animationFrame s) = false
  /\ elements (page (exec TextSelectionLinkerPlugin.animationFrame s))
     = elements (page s).
Proof.
  intros s. split; [reflexivity |]. split; [reflexivity |].
  rewrite (animationFrame_without_popup s eq_refl). split; reflexivity.
Defined.

(** X23: [onunload] hides the popup but leaves the pending timeouts in
    place: if the delayed check expires afterwards while the active
    editor has a valid selection, a popup is shown again. *)
Theorem onunload_keeps_pending_check
    {E : Type} `{Editor E} (s : State E) (ed : nat) (rest : list TimeoutCallback) :
  isProcessing s = false ->
  timeouts (page s) = CheckSelection :: rest ->
  activeEditor (host s) = Some ed ->
  eval SelectionHandler.hasValidSelection (withEditor (Some ed) s) = true ->
  let unloaded := exec TextSelectionLinkerPlugin.onunload s in
  eval PopupManager.exists_ unloaded = false
  /\ timeouts (page unloaded) = CheckSelection :: rest
  /\ eval PopupManager.exists_
       (exec TextSelectionLinkerPlugin.timeoutExpires unloaded) = true.
Proof.
  intros Hidle Hpending Hactive Hvalid unloaded. subst unloaded.
  unfold TextSelectionLinkerPlugin.onunload.
  destruct (hide_guard s) as [Hidle1 _].
  destruct (hide_selection s) as [Hsel1 Hhost1].
  destruct (hide_body s) as [_ Htimeouts1].
  set (s1 := exec PopupManager.hide s) in *.
  split; [apply hide_then_not_exists |].
  split; [now rewrite Htimeouts1 |].
  unfold TextSelectionLinkerPlugin.timeoutExpires.
  rewrite exec_bind, exec_gets, eval_gets, Htimeouts1, Hpending.
  rewrite exec_bind, exec_modify.
  cbn [TextSelectionLinkerPlugin.runTimeoutCallback].
  set (s2 := withPage _ s1).
  assert (Hidle2 : isProcessing s2 = false) by (unfold s2; cbn; congruence).
  destruct (checkSelection_when_idle s2 Hidle2) as [Hexists _].
  rewrite Hexists.
  assert (Hactive2 : activeEditor (host s2) = Some ed)
    by (unfold s2; cbn [host withPage]; congruence).
  rewrite Hactive2, <- Hvalid.
  apply hasValidSelection_ext; [reflexivity |].
  unfold s2. cbn [host withEditor withPage]. exact Hhost1.
Qed.

(** The mouse button is released over a selection and the plugin is
    unloaded before the delay is over. *)
Lemma onunload_keeps_pending_check_witness :
  let s := exec (handle MouseUp) (initial (host example_state)) in
  (isProcessing s = false /\ timeouts (page s) = [CheckSelection]
   /\ activeEditor (host s) = Some 0%nat)
  /\ eval PopupManager.exists_
       (exec TextSelectionLinkerPlugin.timeoutExpires
          (exec TextSelectionLinkerPlugin.onunload s)) = true.
Proof.
  intros s. split; [repeat split |].
  assert (Hvalid : eval SelectionHandler.hasValidSelection
                     (withEditor (Some 0%nat) s) = true) by reflexivity.
  destruct (onunload_keeps_pending_check s 0 [] eq_refl eq_refl eq_refl Hvalid)
    as (_ & _ & Hshown).
  exact Hshown.
Defined.

(** X24: a click on the link button of the popup on screen runs
    [convertToLink] on the bound editor and then removes the popup -- also
    when there was nothing to convert. *)
Theorem click_converts_and_hides
    {E : Type} `{Editor E} (s : State E) (el : nat) (e : HTMLElement) :
  popup (popupManager s) = Some el ->
  In el (body (page s)) ->
  elements (page s) !! el = Some e ->
  children e = [PopupManager.createLinkButton HandleConvertToLink] ->
  let s' := exec (handle (Click el)) s in
  host s' = host (exec SelectionHandler.convertToLink s)
  /\ eval PopupManager.exists_ s' = false
  /\ ~ In el (body (page s')).
Proof.
  intros Hheld Hattached He Hbutton s'.
  assert (Hrun : s' = exec PopupManager.hide (exec SelectionHandler.convertToLink s)).
  { subst s'. cbn [handle]. unfold click.
    rewrite exec_bind, exec_gets, eval_gets, exec_bind, exec_gets, eval_gets.
    assert (Hin : existsb (Nat.eqb el) (body (page s)) = true).
    { apply existsb_exists. exists el. split; [exact Hattached |].
      apply Nat.eqb_refl. }
    rewrite Hin, He, Hbutton. cbn [map concat app PopupManager.createLinkButton
      clickListeners foldr TextSelectionLinkerPlugin.runClickHandler].
    rewrite exec_bind, exec_ret.
    unfold TextSelectionLinkerPlugin.handleConvertToLink. now rewrite exec_bind. }
  rewrite Hrun. split; [apply hide_selection |].
  split; [apply hide_then_not_exists |].
  destruct (hide_body (exec SelectionHandler.convertToLink s)) as [Hbody _].
  destruct (convertToLink_shape s) as (Hp & _).
  rewrite Hbody, Hp, Hheld. intros Hin. apply In_removeChild in Hin.
  now destruct Hin.
Qed.

Lemma click_converts_and_hides_witness :
  let s' := exec (handle (Click 0)) state_after_selecting in
  (popup (popupManager state_after_selecting) = Some 0%nat
   /\ In 0%nat (body (page state_after_selecting)))
  /\ Buffer.text <$> editors (host s') = [js "see [[abcd]] there"]
  /\ eval PopupManager.exists_ s' = false.
Proof.
  intros s'.
  destruct (elements (page state_after_selecting) !! 0%nat) as [e |] eqn:He;
    [| discriminate He].
  assert (Hbutton : children e = [PopupManager.createLinkButton HandleConvertToLink])
    by (injection He as <-; reflexivity).
  destruct (click_converts_and_hides state_after_selecting 0 e eq_refl
              (or_introl eq_refl) He Hbutton) as (Hhost & Hgone & _).
  split; [split; [reflexivity | now left] |].
  split; [| exact Hgone].
  fold s' in Hhost. rewrite Hhost. reflexivity.
Defined.

(** X25: the show-sequence from the start.  With a valid selection in
    the active editor and a selection rectangle on screen, releasing the
    mouse button, letting the delay pass and letting the next animation
    frame come leaves one popup in the document, visible, placed where
    [calculate] says, with the re-entrancy guard clear and nothing
    pending. *)
Theorem show_sequence_places_visible_popup
    {E : Type} `{Editor E} (h : Host E) (ed : nat) (rect : DOMRect.t) :
  activeEditor h = Some ed ->
  eval SelectionHandler.hasValidSelection (withEditor (Some ed) (initial h)) = true ->
  selectionRect h = Some rect ->
  let s' := exec (handle AnimationFrame)
              (exec (handle TimeoutExpires)
                 (exec (handle MouseUp) (initial h))) in
  let pos := PositionCalculator.calculate (window h) rect
               (boundingClientRect h 0%nat) in
  eval PopupManager.getElement s' = Some 0%nat
  /\ body (page s') = [0%nat]
  /\ isVisible 0 s' = true
  /\ isProcessing s' = false
  /\ animationFrames (page s') = [] /\ timeouts (page s') = []
  /\ exists e',
       elements (page s') = [e']
       /\ styleTop e' = Some (PopupPosition.top pos)
       /\ styleLeft e' = Some (PopupPosition.left pos)
       /\ hasClass (PopupManager.placementClass (PopupPosition.placement pos))
            (classList e') = true.
Proof.
  intros Hactive Hvalid Hrect s' pos.
  set (shown := exec TextSelectionLinkerPlugin.showPopup
                  (withEditor (Some ed) (initial h))).
  assert (Hcheck : exec (handle TimeoutExpires) (exec (handle MouseUp) (initial h))
                   = shown).
  { cbn [handle]. unfold TextSelectionLinkerPlugin.timeoutExpires.
    rewrite exec_bind, exec_gets, eval_gets.
    change (timeouts (page (exec TextSelectionLinkerPlugin.handleMouseUp (initial h))))
      with [CheckSelection].
    cbv iota. rewrite exec_bind, exec_modify.
    cbn [TextSelectionLinkerPlugin.runTimeoutCallback].
    change (withPage _ (exec TextSelectionLinkerPlugin.handleMouseUp (initial h)))
      with (initial h).
    unfold TextSelectionLinkerPlugin.checkSelection.
    rewrite exec_bind, exec_gets, eval_gets.
    change (isProcessing (initial h)) with false. cbv iota.
    rewrite exec_bind, exec_gets, eval_gets.
    change (host (initial h)) with h. rewrite Hactive.
    unfold SelectionHandler.setEditor.
    rewrite exec_bind, exec_modify, exec_bind, hasValidSelection_state, Hvalid.
    reflexivity. }
  subst s'. rewrite Hcheck. cbn [handle].
  assert (Hshown : shown
                   = {| popupManager := {| popup := Some 0%nat |};
                        selectionHandler := {| editor := Some ed |};
                        isProcessing := true;
                        page := {| elements :=
                                     [{| classList := [PopupConfig.POPUP_CLASS];
                                         styleTop := None; styleLeft := None;
                                         children := [PopupManager.createLinkButton
                                                        HandleConvertToLink] |}];
                                   body := [0%nat];
                                   animationFrames :=
                                     [AddShowClass; PositionPopupAndRelease];
                                   timeouts := [] |};
                        host := h |}) by reflexivity.
  set (withClass :=
         {| popupManager := {| popup := Some 0%nat |};
            selectionHandler := {| editor := Some ed |};
            isProcessing := true;
            page := {| elements :=
                         [{| classList := [PopupConfig.POPUP_CLASS;
                                           PopupConfig.SHOW_CLASS];
                             styleTop := None; styleLeft := None;
                             children := [PopupManager.createLinkButton
                                            HandleConvertToLink] |}];
                       body := [0%nat];
                       animationFrames := [];
                       timeouts := [] |};
            host := h |}).
  assert (Hfinal : exec TextSelectionLinkerPlugin.animationFrame shown
                   = withProcessing false
                       (exec (PopupManager.position pos) withClass)).
  { rewrite Hshown. unfold TextSelectionLinkerPlugin.animationFrame.
    rewrite exec_bind, exec_gets, eval_gets, exec_bind, exec_modify.
    cbn [page animationFrames TextSelectionLinkerPlugin.runFrameCallbacks].
    rewrite exec_bind, exec_bind, exec_ret.
    change (exec (TextSelectionLinkerPlugin.runFrameCallback AddShowClass) _)
      with withClass.
    cbn [TextSelectionLinkerPlugin.runFrameCallback].
    rewrite exec_bind, exec_modify. f_equal.
    apply positionPopup_with_rect; [exact Hrect | reflexivity]. }
  rewrite Hfinal. clearbody pos. clear Hfinal Hcheck Hshown shown.
  assert (Hplaced : withProcessing false (exec (PopupManager.position pos) withClass)
                    = {| popupManager := {| popup := Some 0%nat |};
                         selectionHandler := {| editor := Some ed |};
                         isProcessing := false;
                         page :=
                           {| elements :=
                                [{| classList :=
                                      classList_add
                                        (PopupManager.placementClass
                                           (PopupPosition.placement pos))
                                        [PopupConfig.POPUP_CLASS;
                                         PopupConfig.SHOW_CLASS];
                                    styleTop := Some (PopupPosition.top pos);
                                    styleLeft := Some (PopupPosition.left pos);
                                    children := [PopupManager.createLinkButton
                                                   HandleConvertToLink] |}];
                              body := [0%nat];
                              animationFrames := [];
                              timeouts := [] |};
                         host := h |}) by reflexivity.
  rewrite Hplaced. clear Hplaced withClass.
  split; [reflexivity |]. split; [reflexivity |].
  split.
  { unfold isVisible. cbn [page body elements existsb Nat.eqb orb andb
      lookup list_lookup classList].
    rewrite hasClass_add. apply orb_true_r. }
  split; [reflexivity |]. split; [reflexivity |]. split; [reflexivity |].
  eexists. split; [reflexivity |]. cbn [styleTop styleLeft classList].
  split; [reflexivity |]. split; [reflexivity |].
  rewrite hasClass_add, String.eqb_refl. reflexivity.
Qed.

Lemma show_sequence_places_visible_popup_witness :
  (activeEditor (host example_state) = Some 0%nat
   /\ selectionRect (host example_state) = Some (rect 500 100 80 20))
  /\ isVisible 0 state_after_selecting = true
  /\ isProcessing state_after_selecting = false.
Proof.
  split; [split; reflexivity |].
  assert (Hvalid : eval SelectionHandler.hasValidSelection
                     (withEditor (Some 0%nat) (initial (host example_state)))
                   = true) by reflexivity.
  destruct (show_sequence_places_visible_popup (host example_state) 0
              (rect 500 100 80 20) eq_refl Hvalid eq_refl)
    as (_ & _ & Hvisible & Hidle & _).
  split; [exact Hvisible | exact Hidle].
Defined.
